(** * The PostgreSQL hash adapter of NodeBB ([src/database/postgres/hash.js])

    A shallow embedding of the hash operations and of the SQL statements they
    send, over an explicit database state, followed by the properties of the
    operations.

    Scope of the model.
    - A string is its sequence of UTF-8 bytes.
    - JSON numbers and the NUMERIC column type are integers ([Z]) and exact,
      as NUMERIC is; fractional values are not modelled.  A JavaScript
      number is a double: of these the model has the integers a double
      holds, the two infinities and NaN, with the rounding of a double where
      an integer becomes a JavaScript number.
    - A JSONB object is a finite map from field names to JSON values.  A
      JavaScript object is the finite map of its own properties together
      with its prototype ([Object.prototype] or none); property values are
      JSON values, never functions.
    - Callbacks are return values: [callback()] is [Undefined],
      [callback(null, x)] is [Value x], [callback(err)] and a thrown error
      are [Err].  The callback forms reach the [async] functions through the
      promisify wrapper of the database module. *)

From Stdlib Require Import ZArith String Ascii Decimal DecimalString DecimalPos DecimalZ.
From stdpp Require Import base option list gmap strings sorting.

Local Open Scope string_scope.

(** ** JavaScript and JSON values *)

(** A JSON value stored in a hash document (documents are flat). *)
Inductive json :=
  | JNull
  | JBool (b : bool)
  | JNum (n : Z)
  | JStr (s : string).

#[global] Instance json_eq_dec : EqDecision json.
Proof. solve_decision. Defined.

(** A hash document: the JSONB object of one row of "legacy_hash", and the
    own properties of a JavaScript object. *)
Abbreviation document := (gmap string json).

(** A JavaScript value as an operation may return it. *)
Inductive js (A : Type) :=
  | Undefined
  | Null
  | Value (a : A).
Arguments Undefined {A}.
Arguments Null {A}.
Arguments Value {A} a.

(** An argument of primitive type, as [incrObjectFieldBy] receives its
    increment.  [VNum n] is the finite double nearest to the integer [n]
    (the integer itself when a double holds it). *)
Inductive jsval :=
  | VUndefined
  | VNull
  | VBool (b : bool)
  | VNum (n : Z)
  | VNaN
  | VInfinity (negative : bool)
  | VStr (s : string).

(** The [key] argument of [incrObjectFieldBy]: absent, one key, or an array. *)
Inductive keyarg :=
  | KAbsent
  | KStr (k : string)
  | KArr (ks : list string).

(** [!key] for a key that is absent ([undefined]/[null]) or a string. *)
Definition falsy (key : option string) : bool :=
  match key with
  | None => true
  | Some k => bool_decide (k = "")
  end.

(** [!key] for [incrObjectFieldBy]; an array, even an empty one, is truthy. *)
Definition falsy_keyarg (key : keyarg) : bool :=
  match key with
  | KAbsent => true
  | KStr k => bool_decide (k = "")
  | KArr _ => false
  end.

(** ** JavaScript numbers *)

(** The integers among the doubles ([Num n], where [n] is an integer that a
    double holds), the infinities and NaN. *)
Inductive number :=
  | NaN
  | Infinity (negative : bool)
  | Num (n : Z).

#[global] Instance number_eq_dec : EqDecision number.
Proof. solve_decision. Defined.

(** An integer rounded to 53 significant bits, to nearest, ties to even. *)
Definition round53 (n : Z) : Z :=
  let a := Z.abs n in
  if (a <? 2 ^ 53)%Z then n
  else
    let e := (Z.log2 a - 52)%Z in
    let q := Z.shiftr a e in
    let r := (a - Z.shiftl q e)%Z in
    let half := (2 ^ (e - 1))%Z in
    let q' :=
      if (half <? r)%Z || ((r =? half)%Z && Z.odd q) then (q + 1)%Z else q in
    (Z.sgn n * Z.shiftl q' e)%Z.

(** [Number.MAX_VALUE], and the magnitude from which rounding overflows:
    half way from [MAX_VALUE] to 2^1024. *)
Definition MAX_VALUE : Z := ((2 ^ 53 - 1) * 2 ^ 971)%Z.
Definition overflow_threshold : Z := (2 ^ 1024 - 2 ^ 970)%Z.

(** The Number value of an integer, as a sequence of decimal digits
    denotes it. *)
Definition number_of_Z (n : Z) : number :=
  if (Z.abs n <? overflow_threshold)%Z then Num (round53 n)
  else Infinity (n <? 0)%Z.

(** The finite double nearest to an integer. *)
Definition double_of_Z (n : Z) : Z :=
  if (Z.abs n <? overflow_threshold)%Z then round53 n
  else (Z.sgn n * MAX_VALUE)%Z.

Definition isNaN (x : number) : bool :=
  match x with
  | NaN => true
  | _ => false
  end.

(** ** Decimal text of numbers *)

Definition string_of_Z (n : Z) : string := NilZero.string_of_int (Z.to_int n).

(** The digits [s] and the exponent [e] with which [Number::toString] prints
    a positive integer double [x]: [s * 10 ^ e] is read back as [x], [s] has
    as few digits as can be, and of the candidates with that many digits the
    nearest to [x] is taken (the even one of two equally near).  A candidate
    with [k] digits for a number of [n] digits is one of the two multiples
    of [10 ^ (n - k)] around [x]. *)
Definition shortest_candidates (x k n : Z) : list (Z * Z) :=
  let e := (n - k)%Z in
  let lo := (x / 10 ^ e)%Z in
  filter (λ c : Z * Z, (10 ^ (k - 1) ≤ c.1 < 10 ^ k)%Z
                       ∧ number_of_Z (c.1 * 10 ^ c.2) = Num x)
         [(lo, e); ((lo + 1)%Z, e)].

Definition distance (x : Z) (c : Z * Z) : Z := Z.abs (c.1 * 10 ^ c.2 - x).

Definition closer (x : Z) (c1 c2 : Z * Z) : Z * Z :=
  if (distance x c2 <? distance x c1)%Z
     || ((distance x c2 =? distance x c1)%Z && Z.even c2.1)
  then c2 else c1.

Fixpoint shortest_from (x n k : Z) (fuel : nat) : Z * Z :=
  match fuel with
  | O => (x, 0%Z)
  | S fuel' =>
      match (shortest_candidates x k n
             ++ shortest_candidates x k (n + 1))%list with
      | c :: cs => foldl (closer x) c cs
      | [] => shortest_from x n (k + 1)%Z fuel'
      end
  end.

Definition shortest (x : Z) : Z * Z :=
  shortest_from x (Z.of_nat (String.length (string_of_Z x))) 1 21.

(** The exponent form [d.ddde+xx] of the digits [s] times [10 ^ e]. *)
Definition exponent_form (s e : Z) : string :=
  match string_of_Z s with
  | String c rest =>
      String c (match rest with
                | EmptyString => EmptyString
                | _ => String "." rest
                end)
      +:+ "e+" +:+ string_of_Z (e + Z.of_nat (String.length rest))
  | EmptyString => EmptyString
  end.

(** [Number::toString]: an integer below 10^21 in magnitude prints as its
    decimal digits, a larger one in exponent form. *)
Definition number_to_string (x : number) : string :=
  match x with
  | NaN => "NaN"
  | Infinity true => "-Infinity"
  | Infinity false => "Infinity"
  | Num z =>
      if (Z.abs z <? 10 ^ 21)%Z then string_of_Z z
      else
        (if (z <? 0)%Z then "-" else "")
        +:+ exponent_form (shortest (Z.abs z)).1 (shortest (Z.abs z)).2
  end.

(** [ToString] of a primitive value. *)
Definition ToString (v : jsval) : string :=
  match v with
  | VUndefined => "undefined"
  | VNull => "null"
  | VBool true => "true"
  | VBool false => "false"
  | VNum n => number_to_string (Num (double_of_Z n))
  | VNaN => number_to_string NaN
  | VInfinity negative => number_to_string (Infinity negative)
  | VStr s => s
  end.

Definition is_digit (c : ascii) : bool :=
  (48 <=? nat_of_ascii c)%nat && (nat_of_ascii c <=? 57)%nat.

(** The white space and line terminators that [parseInt] skips, by their
    UTF-8 bytes.  One byte: TAB, LF, VT, FF, CR and the space. *)
Definition is_space (c : ascii) : bool :=
  let n := nat_of_ascii c in
  (n =? 32)%nat || ((9 <=? n)%nat && (n <=? 13)%nat).

(** Two bytes: U+00A0. *)
Definition is_space2 (a b : ascii) : bool :=
  (nat_of_ascii a =? 194)%nat && (nat_of_ascii b =? 160)%nat.

(** Three bytes: U+1680, U+2000 to U+200A, U+2028, U+2029, U+202F, U+205F,
    U+3000 and U+FEFF. *)
Definition is_space3 (a b c : ascii) : bool :=
  let '(a, b, c) := (nat_of_ascii a, nat_of_ascii b, nat_of_ascii c) in
  ((a =? 225) && (b =? 154) && (c =? 128))%nat
  || ((a =? 226) && (b =? 128)
      && (((128 <=? c) && (c <=? 138)) || (c =? 168) || (c =? 169)
          || (c =? 175)))%nat
  || ((a =? 226) && (b =? 129) && (c =? 159))%nat
  || ((a =? 227) && (b =? 128) && (c =? 128))%nat
  || ((a =? 239) && (b =? 187) && (c =? 191))%nat.

Fixpoint skip_spaces (s : string) : string :=
  match s with
  | String a r =>
      if is_space a then skip_spaces r
      else if (nat_of_ascii a =? 194)%nat then
        match r with
        | String b r' => if is_space2 a b then skip_spaces r' else s
        | EmptyString => s
        end
      else if (225 <=? nat_of_ascii a)%nat then
        match r with
        | String b (String c r') =>
            if is_space3 a b c then skip_spaces r' else s
        | _ => s
        end
      else s
  | EmptyString => s
  end.

(** Longest prefix of decimal digits. *)
Fixpoint take_digits (s : string) : string :=
  match s with
  | String c r => if is_digit c then String c (take_digits r) else EmptyString
  | EmptyString => EmptyString
  end.

(** [parseInt(s, 10)] on a string: white space, an optional sign, then the
    longest run of digits, whose value becomes a number. *)
Definition parseInt_string (s : string) : number :=
  let s1 := skip_spaces s in
  let '(neg, s2) :=
    match s1 with
    | String "-" r => (true, r)
    | String "+" r => (false, r)
    | _ => (false, s1)
    end in
  match NilEmpty.uint_of_string (take_digits s2) with
  | Some Nil | None => NaN
  | Some d => number_of_Z (if neg : bool then - Z.of_uint d else Z.of_uint d)%Z
  end.

(** [parseInt(value, 10)]. *)
Definition parseInt (v : jsval) : number := parseInt_string (ToString v).

(** [parseFloat] of a NUMERIC column as the driver hands it over: the
    decimal digits of the value, or [null]. *)
Definition parseFloat (v : option Z) : number :=
  match v with
  | Some z => number_of_Z z
  | None => NaN
  end.

(** ** The database *)

(** The type LEGACY_OBJECT_TYPE of the registry. *)
Inductive obj_type := THash | TZset | TSet | TList | TString.

#[global] Instance obj_type_eq_dec : EqDecision obj_type.
Proof. solve_decision. Defined.

(** Modelled from the spec: the schema is not part of the adapter.  The type
    registry (the view "legacy_object_live") holds one live row per key; the
    table "legacy_hash" holds one row per key with a JSONB document, and
    every row of it carries the type 'hash'. *)
Record db := Db {
  legacy_object_live : gmap string obj_type;
  legacy_hash : gmap string document;
}.

Definition empty_db : db := Db ∅ ∅.

(** The errors of the database, and the TypeError of a call of something
    that is not a function. *)
Inductive db_error :=
  | TypeConflict (key : string) (found : obj_type)
  | NullKey
  | CardinalityViolation (key : string)
  | InvalidNumeric (text : string)
  | TypeError (callee : string).

Inductive result (A : Type) :=
  | Ok (a : A)
  | Err (e : db_error).
Arguments Ok {A} a.
Arguments Err {A} e.

Definition rbind {A B} (r : result A) (k : A → result B) : result B :=
  match r with
  | Ok a => k a
  | Err e => Err e
  end.

Notation "'run' x ← r ; k" := (rbind r (λ x, k))
  (at level 10, x name, r at level 100, k at level 200,
   format "'[v' 'run'  x  ←  r ; '/' k ']'").

(** [l.map(f)] with a callback that may throw: the first error ends it. *)
Fixpoint rmap {A B} (f : A → result B) (l : list A) : result (list B) :=
  match l with
  | [] => Ok []
  | x :: l' =>
      run y ← f x;
      run ys ← rmap f l';
      Ok (y :: ys)
  end.

(** ** JavaScript objects *)

(** An object: its own properties, and whether its prototype is null (it is
    [Object.prototype] otherwise). *)
Record object := Object {
  own : document;
  null_prototype : bool;
}.

(** The object that [JSON.parse] builds, and an object literal: every
    field is an own property. *)
Definition parsed (d : document) : object := Object d false.

(** [data.hasOwnProperty(name)]: the method is looked up on the object
    first, where an own property of that name shadows it, then on the
    prototype; what is found there is called. *)
Definition hasOwnProperty (data : object) (name : string) : result bool :=
  match own data !! "hasOwnProperty" with
  | Some _ => Err (TypeError "hasOwnProperty")
  | None =>
      if null_prototype data then Err (TypeError "hasOwnProperty")
      else Ok (bool_decide (is_Some (own data !! name)))
  end.

(** [obj[f] = null]: for the name "__proto__", unless the object has a
    property of its own by that name or has no prototype, this is the
    setter of [Object.prototype], which takes the prototype away. *)
Definition assign_null (obj : object) (f : string) : object :=
  if bool_decide (f = "__proto__") && negb (null_prototype obj)
     && bool_decide (own obj !! "__proto__" = None)
  then Object (own obj) true
  else Object (<[f := JNull]> (own obj)) (null_prototype obj).

(** A JavaScript heap of plain objects (with [Object.prototype]), for the
    argument of [setObject]. *)
Abbreviation loc := nat.
Abbreviation heap := (gmap loc document).

(** ** SQL expressions *)

(** [d ->> f]: the field as text; [None] is SQL NULL (missing field or a
    JSON null). *)
Definition jsonb_get_text (d : document) (f : string) : option string :=
  match d !! f with
  | None | Some JNull => None
  | Some (JBool true) => Some "true"
  | Some (JBool false) => Some "false"
  | Some (JNum n) => Some (string_of_Z n)
  | Some (JStr s) => Some s
  end.

(** [d ? f]: the document has the field. *)
Definition jsonb_exists (d : document) (f : string) : bool :=
  bool_decide (is_Some (d !! f)).

(** [t::NUMERIC] on the texts of the model: the integer literals (digits
    with an optional minus sign) are read, NULL stays NULL, and any other
    text is answered with the error of a text that is no number.  (NUMERIC
    reads more texts than these: a fraction, an exponent, a plus sign,
    blanks around the number.) *)
Definition cast_numeric (t : option string) : result (option Z) :=
  match t with
  | None => Ok None
  | Some s =>
      match NilZero.int_of_string s with
      | Some d => Ok (Some (Z.of_int d))
      | None => Err (InvalidNumeric s)
      end
  end.

(** [$3::NUMERIC] for a parameter that is a JavaScript number: the driver
    sends [value.toString()], and this text is read as a NUMERIC: the
    integer itself below 10^21, the value of the exponent form from there
    on ([printed_value]).  The infinities and NaN have no JSON number, the
    statement fails with them. *)
Definition printed_value (z : Z) : Z :=
  if (Z.abs z <? 10 ^ 21)%Z then z
  else (Z.sgn z * ((shortest (Z.abs z)).1 * 10 ^ (shortest (Z.abs z)).2))%Z.

Definition numeric_param (x : number) : result Z :=
  match x with
  | Num z => Ok (printed_value z)
  | _ => Err (InvalidNumeric (number_to_string x))
  end.

(** [jsonb_set(d, ARRAY[f], v)]. *)
Definition jsonb_set (d : document) (f : string) (v : json) : document :=
  <[f := v]> d.

(** [jsonb_build_object(f, v)]. *)
Definition jsonb_build_object (f : string) (v : json) : document :=
  {[f := v]}.

(** [d1 || d2] on objects: the right operand wins on common fields. *)
Definition jsonb_concat (d1 d2 : document) : document := d2 ∪ d1.

(** [jsonb_each(d)], a set of rows. *)
Definition jsonb_each (d : document) : list (string * json) := map_to_list d.

(** The order in which a JSONB object keeps its fields: shorter names
    first, names of one length bytewise. *)
Definition jsonb_key_le (a b : string) : Prop :=
  (String.length a < String.length b)%nat
  ∨ (String.length a = String.length b ∧ String.leb a b = true).

#[global] Instance jsonb_key_le_dec (a b : string)
    : Decision (jsonb_key_le a b).
Proof. unfold jsonb_key_le. apply _. Defined.

(** [jsonb_object_keys(d)], in the order of the object. *)
Definition jsonb_object_keys (d : document) : list string :=
  merge_sort jsonb_key_le (map_to_list d).*1.

(** The aggregate [jsonb_object_agg(key, value)] over the rows of a
    subquery: SQL NULL over no rows; a NULL value becomes a JSON null; of two
    rows with one key the later one stays. *)
Definition jsonb_object_agg (rows : list (string * option json))
    : option document :=
  match rows with
  | [] => None
  | _ => Some (foldl (λ acc r, <[r.1 := default JNull r.2]> acc) ∅ rows)
  end.

(** [COALESCE(x, y)]. *)
Definition COALESCE {A} (x : option A) (y : A) : A := default y x.

(** ** Enumeration of an object *)

(** An array index: the canonical decimal text of an integer below
    2^32 - 1. *)
Definition is_array_index (name : string) : bool :=
  match NilEmpty.uint_of_string name with
  | Some d =>
      bool_decide (string_of_Z (Z.of_uint d) = name)
      && (Z.of_uint d <? 2 ^ 32 - 1)%Z
  | None => false
  end.

(** [for (var key in data)] on the object parsed from a JSONB document: the
    array indices in ascending order (which is their order in the
    document), then the other names in the order of the document. *)
Definition for_in (data : document) : list string :=
  (filter (λ name, is_array_index name = true) (jsonb_object_keys data)
   ++ filter (λ name, ¬ is_array_index name = true) (jsonb_object_keys data))%list.

(** ** Collaborators of the adapter *)

(** Modelled from the spec: [helpers.ensureLegacyObjectType] is the type
    registry's [ensureType(key, type) -> Ok | TypeConflict]: the
    registration is created on the first write to a key, is never changed in
    place, and a key registered under another type is an error.  A NULL key
    cannot be registered. *)
Definition ensureLegacyObjectType (s : db) (key : option string)
    (type : obj_type) : result db :=
  match key with
  | None => Err NullKey
  | Some k =>
      match legacy_object_live s !! k with
      | None => Ok (Db (<[k := type]> (legacy_object_live s)) (legacy_hash s))
      | Some t => if decide (t = type) then Ok s else Err (TypeConflict k t)
      end
  end.

(** Modelled from the spec: [helpers.ensureLegacyObjectsType] is
    [ensureType] on a sequence of keys. *)
Fixpoint ensureLegacyObjectsType (s : db) (keys : list string)
    (type : obj_type) : result db :=
  match keys with
  | [] => Ok s
  | k :: ks =>
      run s' ← ensureLegacyObjectType s (Some k) type;
      ensureLegacyObjectsType s' ks type
  end.

(** Modelled from the spec: [module.transaction] runs its body all or
    nothing; an error leaves no write of the body behind. *)
Definition transaction {A} (body : db → result (db * A)) (s : db)
    : db * result A :=
  match body s with
  | Ok (s', a) => (s', Ok a)
  | Err e => (s, Err e)
  end.

(** ** The statements *)

(** [FROM "legacy_object_live" o INNER JOIN "legacy_hash" h
    ON o."_key" = h."_key" AND o."type" = h."type" WHERE o."_key" = $1]:
    the rows' documents (at most one). *)
Definition live_hash_rows (s : db) (key : string) : list document :=
  match legacy_object_live s !! key with
  | Some THash =>
      match legacy_hash s !! key with
      | Some d => [d]
      | None => []
      end
  | _ => []
  end.

(** The same join as two LEFT OUTER JOINs from one key: always one row,
    whose [h."data"] is NULL without a match. *)
Definition live_hash_outer (s : db) (key : string) : option document :=
  match legacy_object_live s !! key with
  | Some THash => legacy_hash s !! key
  | _ => None
  end.

(** [UNNEST($1::TEXT[]) WITH ORDINALITY k("_key", i)]. *)
Definition with_ordinality {A} (l : list A) : list (nat * A) :=
  zip (seq 1 (length l)) l.

(** [ORDER BY k.i ASC]. *)
Definition ordinal_le {A} (r1 r2 : nat * A) : Prop := (r1.1 ≤ r2.1)%nat.

#[global] Instance ordinal_le_dec {A} (r1 r2 : nat * A)
    : Decision (ordinal_le r1 r2) := decide (r1.1 ≤ r2.1)%nat.

Definition order_by_ordinal {A} (rows : list (nat * A)) : list (nat * A) :=
  merge_sort ordinal_le rows.

(** [(SELECT jsonb_object_agg(f, d."value") FROM UNNEST($2::TEXT[]) f
    LEFT OUTER JOIN jsonb_each(h."data") d ON d."key" = f)]. *)
Definition project_fields (data : option document) (fields : list string)
    : option document :=
  jsonb_object_agg (map (λ f, (f, data ≫= (.!! f))) fields).

(** The row that the two increment statements write for one key: VALUES
    for a new row, the ON CONFLICT branch for an existing one. *)
Definition incr_data (old : option document) (field : string) (value : Z)
    : result document :=
  match old with
  | None => Ok (jsonb_build_object field (JNum value))
  | Some d =>
      run cur ← cast_numeric (jsonb_get_text d field);
      Ok (jsonb_set d field (JNum (COALESCE cur 0 + value)%Z))
  end.

(** The written row with its RETURNING clause: the new document and the
    value of [("data"->>$2)::NUMERIC]. *)
Definition incr_row (old : option document) (field : string) (value : Z)
    : result (document * option Z) :=
  run data ← incr_data old field value;
  run v ← cast_numeric (jsonb_get_text data field);
  Ok (data, v).

(** The rows of [SELECT UNNEST($1::TEXT[]), ...] are upserted in the order
    of the array.  INSERT ... ON CONFLICT DO UPDATE may not touch one row
    twice in a command: a key proposed a second time is a cardinality
    violation. *)
Fixpoint incr_rows (touched : gset string) (h : gmap string document)
    (keys : list string) (field : string) (value : Z)
    : result (gmap string document * list (option Z)) :=
  match keys with
  | [] => Ok (h, [])
  | k :: ks =>
      if decide (k ∈ touched) then Err (CardinalityViolation k)
      else
        run r ← incr_row (h !! k) field value;
        run rest ← incr_rows ({[k]} ∪ touched) (<[k := r.1]> h) ks field value;
        Ok (rest.1, r.2 :: rest.2)
  end.

(** What [incrObjectFieldBy] resolves to beside [null]. *)
Inductive incr_value :=
  | INum (n : number)
  | INums (ns : list number).

Section Adapter.

(** The order in which the joins of a statement deliver their rows; the
    properties assume no more of it than that it rearranges the rows. *)
Variable join_order : ∀ A, list A → list A.

(** *** Statements *)

Definition query_setObject (s : db) (key : string) (data : document) : db :=
  let h := legacy_hash s in
  Db (legacy_object_live s)
     (match h !! key with
      | None => <[key := data]> h
      | Some old => <[key := jsonb_concat old data]> h
      end).

Definition query_setObjectField (s : db) (key : option string)
    (field : string) (value : json) : result db :=
  match key with
  | None => Err NullKey
  | Some k =>
      let h := legacy_hash s in
      Ok (Db (legacy_object_live s)
             (match h !! k with
              | None => <[k := jsonb_build_object field value]> h
              | Some old => <[k := jsonb_set old field value]> h
              end))
  end.

Definition query_getObject (s : db) (key : string) : list document :=
  take 1 (live_hash_rows s key).

Definition query_getObjects (s : db) (keys : list string)
    : list (option document) :=
  let joined :=
    join_order _ ((λ r, (r.1, live_hash_outer s r.2)) <$> with_ordinality keys) in
  (order_by_ordinal joined).*2.

Definition query_getObjectField (s : db) (key field : string)
    : list (option string) :=
  take 1 ((λ d, jsonb_get_text d field) <$> live_hash_rows s key).

Definition query_getObjectFields (s : db) (key : string)
    (fields : list string) : list (option document) :=
  (λ d, project_fields (Some d) fields) <$> live_hash_rows s key.

Definition query_getObjectsFields (s : db) (keys fields : list string)
    : list (option document) :=
  let joined :=
    join_order _ ((λ r, (r.1, project_fields (live_hash_outer s r.2) fields))
                    <$> with_ordinality keys) in
  (order_by_ordinal joined).*2.

Definition query_getObjectKeys (s : db) (key : string)
    : list (list string) :=
  take 1 (jsonb_object_keys <$> live_hash_rows s key).

Definition query_isObjectField (s : db) (key field : string) : list bool :=
  take 1 ((λ d, jsonb_exists d field
                && bool_decide (is_Some (jsonb_get_text d field)))
            <$> live_hash_rows s key).

Definition query_deleteObjectFields (s : db) (key : string)
    (fields : list string) : db :=
  match legacy_hash s !! key with
  | None => s
  | Some d =>
      let kept := filter (λ kv, kv.1 ∉ fields) (jsonb_each d) in
      let agg := jsonb_object_agg ((λ kv, (kv.1, Some kv.2)) <$> kept) in
      Db (legacy_object_live s) (<[key := COALESCE agg ∅]> (legacy_hash s))
  end.

Definition query_incrObjectFieldBy (s : db) (key field : string) (value : Z)
    : result (db * option Z) :=
  run r ← incr_row (legacy_hash s !! key) field value;
  Ok (Db (legacy_object_live s) (<[key := r.1]> (legacy_hash s)), r.2).

Definition query_incrObjectFieldByMulti (s : db) (keys : list string)
    (field : string) (value : Z) : result (db * list (option Z)) :=
  run r ← incr_rows ∅ (legacy_hash s) keys field value;
  Ok (Db (legacy_object_live s) r.1, r.2).

(** *** Operations *)

(** The key after the [!key] guard. *)
Definition key_text (key : option string) : string := default "" key.

(** A nullable column as the driver hands it over. *)
Definition of_sql {A} (x : option A) : js A :=
  match x with
  | Some a => Value a
  | None => Null
  end.

(** [if (data.hasOwnProperty('')) delete data['']], on the object that
    [data] refers to. *)
Definition strip_empty_field (hp : heap) (data : loc) : result heap :=
  let obj := hp !!! data in
  run has ← hasOwnProperty (parsed obj) "";
  Ok (if has : bool then <[data := delete "" obj]> hp else hp).

Definition setObject (hp : heap) (s : db) (key : option string)
    (data : option loc) : heap * (db * result (js unit)) :=
  match data with
  | Some l =>
      if falsy key then (hp, (s, Ok Undefined))
      else
        match strip_empty_field hp l with
        | Err e => (hp, (s, Err e))
        | Ok hp' =>
            (hp',
             transaction (λ client,
               run c ← ensureLegacyObjectType client key THash;
               Ok (query_setObject c (key_text key) (hp' !!! l), Undefined)) s)
        end
  | None => (hp, (s, Ok Undefined))
  end.

Definition setObjectField (s : db) (key : option string) (field : string)
    (value : json) : db * result (js unit) :=
  if bool_decide (field = "") then (s, Ok Undefined)
  else
    transaction (λ client,
      run c ← ensureLegacyObjectType client key THash;
      run c' ← query_setObjectField c key field value;
      Ok (c', Undefined)) s.

Definition getObject (s : db) (key : option string) : js document :=
  if falsy key then Null
  else
    match query_getObject s (key_text key) with
    | data :: _ => Value data
    | [] => Null
    end.

Definition getObjects (s : db) (keys : list string) : list (js document) :=
  match keys with
  | [] => []
  | _ => of_sql <$> query_getObjects s keys
  end.

Definition getObjectField (s : db) (key : option string) (field : string)
    : js string :=
  if falsy key then Null
  else
    match query_getObjectField s (key_text key) field with
    | f :: _ => of_sql f
    | [] => Null
    end.

(** The result is the object parsed from the row, or the object that the
    loop [obj[f] = null] builds from [{}]. *)
Definition getObjectFields (s : db) (key : option string)
    (fields : list string) : js object :=
  if falsy key then Null
  else
    match query_getObjectFields s (key_text key) fields with
    | d :: _ => of_sql (parsed <$> d)
    | [] => Value (foldl assign_null (parsed ∅) fields)
    end.

Definition getObjectsFields (s : db) (keys fields : list string)
    : list (js document) :=
  match keys with
  | [] => []
  | _ => of_sql <$> query_getObjectsFields s keys fields
  end.

Definition getObjectKeys (s : db) (key : option string)
    : js (list string) :=
  if falsy key then Undefined
  else
    match query_getObjectKeys s (key_text key) with
    | k :: _ => Value k
    | [] => Value []
    end.

Definition getObjectValues (s : db) (key : option string)
    : result (list json) :=
  match getObject s key with
  | Value data =>
      run values ← rmap (λ key,
                      run has ← hasOwnProperty (parsed data) key;
                      Ok (if has : bool then option_list (data !! key) else []))
                    (for_in data);
      Ok (concat values)
  | _ => Ok []
  end.

Definition isObjectField (s : db) (key : option string) (field : string)
    : js bool :=
  if falsy key then Undefined
  else
    match query_isObjectField s (key_text key) field with
    | b :: _ => Value b
    | [] => Value false
    end.

Definition isObjectFields (s : db) (key : option string)
    (fields : list string) : result (js (list bool)) :=
  if falsy key then Ok Undefined
  else
    match getObjectFields s key fields with
    | Value data =>
        run bs ← rmap (λ field,
                    run has ← hasOwnProperty data field;
                    Ok (has && bool_decide (own data !! field ≠ Some JNull)))
                  fields;
        Ok (Value bs)
    | _ => Ok (Value ((λ _, false) <$> fields))
    end.

Definition deleteObjectFields (s : db) (key : option string)
    (fields : list string) : db * result (js unit) :=
  if falsy key || bool_decide (fields = []) then (s, Ok Undefined)
  else (query_deleteObjectFields s (key_text key) fields, Ok Undefined).

Definition deleteObjectField (s : db) (key : option string)
    (field : string) : db * result (js unit) :=
  deleteObjectFields s key [field].

Definition incrObjectFieldBy (s : db) (key : keyarg) (field : string)
    (value : jsval) : db * result (js incr_value) :=
  let value := parseInt value in
  if falsy_keyarg key || isNaN value then (s, Ok Null)
  else
    transaction (λ client,
      match key with
      | KArr keys =>
          run c ← ensureLegacyObjectsType client keys THash;
          run v ← numeric_param value;
          run res ← query_incrObjectFieldByMulti c keys field v;
          Ok (res.1, Value (INums (parseFloat <$> res.2)))
      | KStr k =>
          run c ← ensureLegacyObjectType client (Some k) THash;
          run v ← numeric_param value;
          run res ← query_incrObjectFieldBy c k field v;
          Ok (res.1, Value (INum (parseFloat res.2)))
      | KAbsent => Err NullKey
      end) s.

Definition incrObjectField (s : db) (key : keyarg) (field : string)
    : db * result (js incr_value) :=
  incrObjectFieldBy s key field (VNum 1).

Definition decrObjectField (s : db) (key : keyarg) (field : string)
    : db * result (js incr_value) :=
  incrObjectFieldBy s key field (VNum (-1)).

End Adapter.

(** ** Calls in flight

    The statements of several calls [incrObjectFieldBy(key, field, value)]
    with one key, run in any order on one store.  A call sends the two
    statements of its transaction (lines 303-331): the registration, then
    the upsert.  Each statement runs alone on the store as it is then: this
    is what the specification assumes of the store (atomic single-statement
    upserts).  [value] is the increment after [parseInt]. *)

(** How far a call has come: no statement yet, the registration, or the
    upsert, with the number the call resolves to. *)
Inductive progress :=
  | Called
  | Registered
  | Resolved (v : number).

(** The next statement of call [i]. *)
Definition next_statement (key field : string) (value : number) (i : nat)
    (st : db * list progress) : result (db * list progress) :=
  match st.2 !! i with
  | Some Called =>
      run c ← ensureLegacyObjectType st.1 (Some key) THash;
      Ok (c, <[i := Registered]> st.2)
  | Some Registered =>
      run v ← numeric_param value;
      run res ← query_incrObjectFieldBy st.1 key field v;
      Ok (res.1, <[i := Resolved (parseFloat res.2)]> st.2)
  | _ => Ok st
  end.

(** The statements in the order of [schedule], which names the call that
    sends its next statement; a statement that fails ends the run. *)
Fixpoint interleave (key field : string) (value : number)
    (schedule : list nat) (st : db * list progress)
    : result (db * list progress) :=
  match schedule with
  | [] => Ok st
  | i :: rest =>
      run st' ← next_statement key field value i st;
      interleave key field value rest st'
  end.

(** ** Notions used by the properties *)

(** The hash document of a key: its row of "legacy_hash", provided the key's
    live registration is 'hash'. *)
Definition hash_document (s : db) (k : string) : option document :=
  if decide (legacy_object_live s !! k = Some THash) then legacy_hash s !! k
  else None.

(** The number held by a field of a row: 0 when the row or the field is
    absent; undefined when the field holds something that is not a number. *)
Definition doc_number (row : option document) (f : string) : option Z :=
  match row ≫= (.!! f) with
  | None => Some 0%Z
  | Some (JNum n) => Some n
  | Some _ => None
  end.

Definition field_number (s : db) (k f : string) : option Z :=
  doc_number (legacy_hash s !! k) f.

(** A key that the hash emulation may write: unregistered, or registered as
    a hash. *)
Definition writable (s : db) (k : string) : Prop :=
  legacy_object_live s !! k = None ∨ legacy_object_live s !! k = Some THash.

(** A field that is present in a document and holds a value other than
    [null]. *)
Definition has_value (data : option document) (f : string) : Prop :=
  ∃ v, data ≫= (.!! f) = Some v ∧ v ≠ JNull.

(** What a request for [fields] answers for the field [f]: nothing for a
    field that was not requested, else the field's value, [null] when the
    document (or the field) is missing. *)
Definition requested (data : option document) (fields : list string)
    (f : string) : option json :=
  if decide (f ∈ fields) then Some (default JNull (data ≫= (.!! f))) else None.

(** An integer that a double holds and that prints as its decimal digits:
    the integers up to 2^53 in magnitude, and those of the larger ones
    below 10^21 that have no more than 53 significant bits. *)
Definition plain_number (n : Z) : Prop :=
  round53 n = n ∧ (Z.abs n < 10 ^ 21)%Z.

(** [f] applied under [Value]. *)
Definition js_map {A B} (f : A → B) (x : js A) : js B :=
  match x with
  | Undefined => Undefined
  | Null => Null
  | Value a => Value (f a)
  end.

(** The calls of a run that have not resolved yet. *)
Definition resolved (p : progress) : bool :=
  match p with
  | Resolved _ => true
  | _ => false
  end.

Definition unresolved (calls : list progress) : list progress :=
  filter (λ p, resolved p = false) calls.

(** The numbers that the calls of a run have resolved to, in the order of
    the calls. *)
Fixpoint values_of (calls : list progress) : list number :=
  match calls with
  | [] => []
  | Resolved v :: calls' => v :: values_of calls'
  | _ :: calls' => values_of calls'
  end.

(** The statements a call has still to send. *)
Definition statements_left (p : progress) : nat :=
  match p with
  | Called => 2
  | Registered => 1
  | Resolved _ => 0
  end.

(** ** Sample states *)

(** A store in which the hash [k1] holds [{n: 0}] and nothing else exists. *)
Definition db_k1_zero : db :=
  Db {["k1" := THash]} {["k1" := {["n" := JNum 0]}]}.

(** Two objects of a caller: [{a: 1}] and [{b: 2}]. *)
Definition heap_a_b : heap :=
  {[ 0%nat := {["a" := JNum 1]}; 1%nat := {["b" := JNum 2]} ]}.

(** Two objects of a caller: [{a: 1}] and an object whose only property is
    named by the empty string. *)
Definition heap_a_empty : heap :=
  {[ 0%nat := {["a" := JNum 1]}; 1%nat := {["" := JNum 1]} ]}.

(** Two objects of a caller: [{a: 1}] and [{b: 2, hasOwnProperty: 3}]. *)
Definition heap_a_shadow : heap :=
  {[ 0%nat := {["a" := JNum 1]};
     1%nat := {["b" := JNum 2; "hasOwnProperty" := JNum 3]} ]}.

(** An object of a caller with a property named by the empty string and a
    property named hasOwnProperty. *)
Definition heap_empty_shadow : heap :=
  {[ 0%nat := {["" := JNum 1; "hasOwnProperty" := JNum 3]} ]}.


(** ** Notions used by the further properties *)

(** The number a field counts as in an increment: 0 when the field is absent
    or holds [null], the number it holds, or the integer that the string it
    holds spells; nothing when it holds a boolean or another string. *)
Definition numeric_reading (v : option json) : option Z :=
  match v with
  | None | Some JNull => Some 0%Z
  | Some (JNum n) => Some n
  | Some (JStr t) => Z.of_int <$> NilZero.int_of_string t
  | Some (JBool _) => None
  end.

(** One call of [incrObjectFieldBy] per key, in the order of the list; the
    loop ends at a call that does not resolve to a number. *)
Fixpoint incr_loop (s : db) (keys : list string) (f : string) (delta : jsval)
    : db * list number :=
  match keys with
  | [] => (s, [])
  | k :: ks =>
      match incrObjectFieldBy s (KStr k) f delta with
      | (s1, Ok (Value (INum v))) =>
          let '(s2, vs) := incr_loop s1 ks f delta in (s2, v :: vs)
      | (s1, _) => (s1, [])
      end
  end.

(** The key [k] has in [s'] the registration and the row it has in [s]. *)
Definition same_at (s s' : db) (k : string) : Prop :=
  legacy_object_live s' !! k = legacy_object_live s !! k
  ∧ legacy_hash s' !! k = legacy_hash s !! k.

(** A store in which [k1] has a row but no live registration. *)
Definition db_k1_unregistered : db :=
  Db ∅ {["k1" := {["n" := JNum 0]}]}.

(** A store in which the hash [k1] holds [{on: true}]. *)
Definition db_k1_flag : db :=
  Db {["k1" := THash]} {["k1" := {["on" := JBool true]}]}.

(** A store in which the hash [k1] holds [{hasOwnProperty: 1, n: 0}]. *)
Definition db_k1_shadow : db :=
  Db {["k1" := THash]}
     {["k1" := {["hasOwnProperty" := JNum 1; "n" := JNum 0]}]}.

(** * Properties *)

(** ** Numbers and their decimal text *)

#[local] Arguments round53 : simpl never.
#[local] Arguments number_of_Z : simpl never.
#[local] Arguments double_of_Z : simpl never.
#[local] Arguments shortest : simpl never.
#[local] Arguments printed_value : simpl never.
#[local] Arguments number_to_string : simpl never.

Lemma overflow_threshold_large : (10 ^ 21 < overflow_threshold)%Z.
Proof. by vm_compute. Qed.

Lemma round53_small (n : Z) : (Z.abs n < 2 ^ 53)%Z → round53 n = n.
Proof. intros H. unfold round53. by rewrite (proj2 (Z.ltb_lt _ _) H). Qed.

Lemma number_of_Z_exact (n : Z) :
  round53 n = n → (Z.abs n < 10 ^ 21)%Z → number_of_Z n = Num n.
Proof.
  intros Hr Hn. unfold number_of_Z. rewrite Hr.
  pose proof overflow_threshold_large.
  by rewrite (proj2 (Z.ltb_lt _ _)) by lia.
Qed.

Lemma round53_limit (n : Z) : (Z.abs n ≤ 2 ^ 53)%Z → round53 n = n.
Proof.
  intros H. destruct (decide (Z.abs n < 2 ^ 53)%Z) as [Hlt|Hge].
  - by apply round53_small.
  - assert (n = 2 ^ 53 ∨ n = - 2 ^ 53)%Z as [->| ->] by lia;
      by vm_compute.
Qed.

Lemma plain_number_small (n : Z) : (Z.abs n ≤ 2 ^ 53)%Z → plain_number n.
Proof.
  intros H. split; [by apply round53_limit|].
  assert (2 ^ 53 < 10 ^ 21)%Z by (by vm_compute). lia.
Qed.

Lemma number_of_Z_plain (n : Z) : plain_number n → number_of_Z n = Num n.
Proof. intros [? ?]. by apply number_of_Z_exact. Qed.

Lemma number_of_Z_small (n : Z) :
  (Z.abs n ≤ 2 ^ 53)%Z → number_of_Z n = Num n.
Proof. intros H. by apply number_of_Z_plain, plain_number_small. Qed.

Lemma double_of_Z_plain (n : Z) : plain_number n → double_of_Z n = n.
Proof.
  intros [Hr Hn]. unfold double_of_Z. pose proof overflow_threshold_large.
  by rewrite (proj2 (Z.ltb_lt _ _)) by lia.
Qed.

Lemma printed_value_plain (n : Z) : (Z.abs n < 10 ^ 21)%Z → printed_value n = n.
Proof. intros H. unfold printed_value. by rewrite (proj2 (Z.ltb_lt _ _) H). Qed.

Lemma take_digits_string_of_uint (d : uint) :
  take_digits (NilEmpty.string_of_uint d) = NilEmpty.string_of_uint d.
Proof.
  induction d as [|d IH|d IH|d IH|d IH|d IH|d IH|d IH|d IH|d IH|d IH];
    simpl; by rewrite ?IH.
Qed.

Lemma parseInt_string_digits (d : uint) :
  d ≠ Nil →
  parseInt_string (NilEmpty.string_of_uint d) = number_of_Z (Z.of_uint d).
Proof.
  intros Hd. unfold parseInt_string.
  destruct d; try done; simpl;
    rewrite take_digits_string_of_uint, NilEmpty.usu; done.
Qed.

Lemma parseInt_string_minus_digits (d : uint) :
  d ≠ Nil →
  parseInt_string (String "-" (NilEmpty.string_of_uint d))
  = number_of_Z (- Z.of_uint d)%Z.
Proof.
  intros Hd. unfold parseInt_string. simpl.
  rewrite take_digits_string_of_uint, NilEmpty.usu. by destruct d.
Qed.

Lemma string_of_uint_nonnil (d : uint) :
  d ≠ Nil → NilZero.string_of_uint d = NilEmpty.string_of_uint d.
Proof. by destruct d. Qed.

Lemma parseInt_string_of_Z (n : Z) :
  parseInt_string (string_of_Z n) = number_of_Z n.
Proof.
  destruct n as [|p|p]; [done|..]; unfold string_of_Z; simpl;
    pose proof (DecimalPos.Unsigned.to_uint_nonnil p) as Hp;
    rewrite (string_of_uint_nonnil _ Hp).
  - rewrite (parseInt_string_digits _ Hp).
    unfold Z.of_uint. by rewrite DecimalPos.Unsigned.of_to.
  - rewrite (parseInt_string_minus_digits _ Hp).
    unfold Z.of_uint. by rewrite DecimalPos.Unsigned.of_to.
Qed.

(** [parseInt] of a number that prints as its digits is that number. *)
Lemma parseInt_VNum (n : Z) : plain_number n → parseInt (VNum n) = Num n.
Proof.
  intros Hn. unfold parseInt, ToString, number_to_string.
  rewrite (double_of_Z_plain n Hn).
  rewrite (proj2 (Z.ltb_lt _ _)) by apply Hn.
  by rewrite parseInt_string_of_Z, number_of_Z_plain.
Qed.

Lemma cast_numeric_string_of_Z (n : Z) :
  cast_numeric (Some (string_of_Z n)) = Ok (Some n).
Proof.
  unfold cast_numeric, string_of_Z.
  rewrite NilZero.isi.
  - by rewrite DecimalZ.of_to.
  - destruct n; simpl; try discriminate.
    intros [= H]. by apply DecimalPos.Unsigned.to_uint_nonnil in H.
  - destruct n; simpl; try discriminate.
    intros [= H]. by apply DecimalPos.Unsigned.to_uint_nonnil in H.
Qed.

(** *** The exponent form *)

Lemma closer_elem (x : Z) (c : Z * Z) (cs : list (Z * Z)) :
  foldl (closer x) c cs ∈ c :: cs.
Proof.
  revert c. induction cs as [|c' cs IH]; intros c; [by left|].
  cbn [foldl]. specialize (IH (closer x c c')).
  apply elem_of_cons in IH as [->|IH].
  - unfold closer. case_match; [right; by left|by left].
  - by do 2 right.
Qed.

Lemma shortest_candidates_pos (x k n : Z) (c : Z * Z) :
  (1 ≤ k)%Z → c ∈ shortest_candidates x k n → (0 < c.1)%Z.
Proof.
  intros Hk [[Hs _] _]%list_elem_of_filter.
  assert (0 < 10 ^ (k - 1))%Z by (apply Z.pow_pos_nonneg; lia). lia.
Qed.

Lemma shortest_from_pos (fuel : nat) (x n k : Z) :
  (0 < x)%Z → (1 ≤ k)%Z → (0 < (shortest_from x n k fuel).1)%Z.
Proof.
  revert k. induction fuel as [|fuel IH]; intros k Hx Hk; [done|].
  cbn [shortest_from].
  destruct (shortest_candidates x k n ++ shortest_candidates x k (n + 1))%list
    as [|c cs] eqn:Hcs.
  - apply IH; lia.
  - pose proof (closer_elem x c cs) as Hin. rewrite <-Hcs in Hin.
    apply elem_of_app in Hin as [Hin|Hin];
      by eapply shortest_candidates_pos.
Qed.

Lemma shortest_pos (x : Z) : (0 < x)%Z → (0 < (shortest x).1)%Z.
Proof. intros Hx. by apply shortest_from_pos. Qed.

(** [parseInt] reads the leading digit of an exponent form. *)
Lemma parseInt_exponent_form (s e : Z) :
  (0 < s)%Z →
  ∃ m, parseInt_string (exponent_form s e) = Num m
       ∧ parseInt_string ("-" +:+ exponent_form s e) = Num (- m).
Proof.
  intros Hs. destruct s as [|p|p]; [done| |done].
  unfold exponent_form.
  replace (string_of_Z (Z.pos p)) with (NilEmpty.string_of_uint (Pos.to_uint p)).
  - pose proof (DecimalPos.Unsigned.to_uint_nonnil p) as Hp.
    destruct (Pos.to_uint p) as [|d|d|d|d|d|d|d|d|d|d]; [done|..];
      cbn [NilEmpty.string_of_uint];
      destruct (NilEmpty.string_of_uint d) as [|c r];
      eexists; split; vm_compute; reflexivity.
  - unfold string_of_Z. cbn [Z.to_int NilZero.string_of_int].
    symmetry. apply string_of_uint_nonnil, DecimalPos.Unsigned.to_uint_nonnil.
Qed.

(** Whatever number is passed as the increment, [parseInt] finds a finite
    number in its text. *)
Lemma parseInt_VNum_finite (n : Z) : ∃ m, parseInt (VNum n) = Num m.
Proof.
  unfold parseInt, ToString, number_to_string.
  set (x := double_of_Z n).
  destruct (Z.abs x <? 10 ^ 21)%Z eqn:Hx.
  - apply Z.ltb_lt in Hx. rewrite parseInt_string_of_Z. unfold number_of_Z.
    pose proof overflow_threshold_large.
    rewrite (proj2 (Z.ltb_lt _ _)) by lia. by eexists.
  - apply Z.ltb_ge in Hx.
    assert (0 < 10 ^ 21)%Z by (by vm_compute).
    destruct (parseInt_exponent_form (shortest (Z.abs x)).1
                (shortest (Z.abs x)).2) as (m & Hpos & Hneg);
      [apply shortest_pos; lia|].
    destruct (x <? 0)%Z; by eexists.
Qed.

(** ** The registry *)

#[local] Arguments ensureLegacyObjectType : simpl never.
#[local] Arguments incr_row : simpl never.
#[local] Arguments cast_numeric : simpl never.
#[local] Arguments jsonb_get_text : simpl never.

Lemma ensureLegacyObjectType_writable (s : db) (k : string) :
  writable s k →
  ∃ s', ensureLegacyObjectType s (Some k) THash = Ok s'
        ∧ legacy_hash s' = legacy_hash s
        ∧ legacy_object_live s' = <[k := THash]> (legacy_object_live s).
Proof.
  intros [H|H]; unfold ensureLegacyObjectType; rewrite H; simpl.
  - eexists. split_and!; done.
  - exists s. split_and!; [done..|]. by rewrite insert_id.
Qed.

Lemma ensureLegacyObjectsType_writable (keys : list string) (s : db) :
  (∀ k, k ∈ keys → writable s k) →
  ∃ s', ensureLegacyObjectsType s keys THash = Ok s'
        ∧ legacy_hash s' = legacy_hash s
        ∧ (∀ k, k ∈ keys → legacy_object_live s' !! k = Some THash)
        ∧ (∀ k, k ∉ keys → legacy_object_live s' !! k = legacy_object_live s !! k).
Proof.
  revert s. induction keys as [|k ks IH]; intros s Hw; simpl.
  - exists s. split_and!; [done..| |done]. by intros k ?%elem_of_nil.
  - destruct (ensureLegacyObjectType_writable s k) as (s1 & -> & Hh1 & Hl1);
      [apply Hw; left|]. simpl.
    destruct (IH s1) as (s' & -> & Hh & Hin & Hout).
    { intros k' Hk'. unfold writable. rewrite Hl1.
      destruct (decide (k = k')) as [->|Hne].
      - right. by rewrite lookup_insert_eq.
      - rewrite lookup_insert_ne by done. apply Hw. by right. }
    exists s'. split_and!; [done|congruence| |].
    + intros k' [->|Hk']%elem_of_cons; [|by apply Hin].
      destruct (decide (k ∈ ks)); [by apply Hin|].
      rewrite Hout, Hl1 by done. by rewrite lookup_insert_eq.
    + intros k' [Hne Hk']%not_elem_of_cons.
      rewrite Hout, Hl1 by done. by rewrite lookup_insert_ne.
Qed.

(** ** The increment statements *)

Lemma incr_row_number (row : option document) (f : string) (v n : Z) :
  doc_number row f = Some n →
  incr_row row f v
  = Ok (<[f := JNum (n + v)]> (default ∅ row), Some (n + v)%Z).
Proof.
  unfold doc_number, incr_row, incr_data. intros Hn.
  assert (Hnew : ∀ d : document,
    jsonb_get_text (<[f := JNum (n + v)]> d) f = Some (string_of_Z (n + v))).
  { intros d. unfold jsonb_get_text. by rewrite lookup_insert_eq. }
  destruct row as [d|]; simpl in *.
  - assert (Hcur : (run cur ← cast_numeric (jsonb_get_text d f);
                    Ok (jsonb_set d f (JNum (COALESCE cur 0 + v)%Z)))
                   = Ok (<[f := JNum (n + v)]> d)).
    { unfold jsonb_get_text, jsonb_set.
      destruct (d !! f) as [[| |m|]|]; simplify_eq; [|done].
      by rewrite cast_numeric_string_of_Z. }
    rewrite Hcur. simpl. by rewrite Hnew, cast_numeric_string_of_Z.
  - simplify_eq. unfold jsonb_build_object.
    rewrite <-insert_empty, Z.add_0_l.
    by rewrite (Hnew ∅), cast_numeric_string_of_Z.
Qed.

Lemma incr_rows_distinct (keys : list string) (touched : gset string)
    (h : gmap string document) (f : string) (v : Z) (prev : string → Z) :
  NoDup keys →
  (∀ k, k ∈ keys → k ∉ touched) →
  (∀ k, k ∈ keys → doc_number (h !! k) f = Some (prev k)) →
  ∃ h', incr_rows touched h keys f v
        = Ok (h', (λ k, Some (prev k + v)%Z) <$> keys)
        ∧ (∀ k, k ∈ keys →
             h' !! k = Some (<[f := JNum (prev k + v)]> (default ∅ (h !! k))))
        ∧ (∀ k, k ∉ keys → h' !! k = h !! k).
Proof.
  revert touched h.
  induction keys as [|k ks IH]; intros touched h Hnd Hfresh Hnum; simpl.
  - exists h. split_and!; [done| |done]. by intros k ?%elem_of_nil.
  - apply NoDup_cons in Hnd as [Hk Hnd].
    rewrite decide_False by (apply Hfresh; left).
    rewrite (incr_row_number _ _ _ (prev k)) by (apply Hnum; left). simpl.
    destruct (IH ({[k]} ∪ touched)
                 (<[k := <[f := JNum (prev k + v)]> (default ∅ (h !! k))]> h))
      as (h' & -> & Hin & Hout); [done| | |].
    { intros k' Hk'. apply not_elem_of_union. split.
      - apply not_elem_of_singleton. by intros ->.
      - apply Hfresh. by right. }
    { intros k' Hk'. rewrite lookup_insert_ne by (by intros ->).
      apply Hnum. by right. }
    simpl. exists h'. split_and!; [done| |].
    + intros k' [->|Hk']%elem_of_cons.
      * by rewrite Hout, lookup_insert_eq.
      * rewrite Hin by done. by rewrite lookup_insert_ne by (by intros ->).
    + intros k' [Hne Hk']%not_elem_of_cons.
      by rewrite Hout, lookup_insert_ne.
Qed.

(** ** Batch increment *)

(** The batch increment with an increment that [parseInt] reads as the
    number [m]: what is added is the NUMERIC that the text of [m] spells,
    and what is returned is the double nearest to each sum. *)
Lemma incrObjectFieldBy_array_state (s : db) (keys : list string)
    (f : string) (delta : jsval) (m : Z) (prev : string → Z) :
  parseInt delta = Num m →
  NoDup keys →
  (∀ k, k ∈ keys → writable s k) →
  (∀ k, k ∈ keys → field_number s k f = Some (prev k)) →
  ∃ s', incrObjectFieldBy s (KArr keys) f delta
        = (s', Ok (Value (INums
             ((λ k, number_of_Z (prev k + printed_value m)) <$> keys))))
        ∧ (∀ k, k ∈ keys →
             legacy_object_live s' !! k = Some THash
             ∧ legacy_hash s' !! k
               = Some (<[f := JNum (prev k + printed_value m)]>
                         (default ∅ (legacy_hash s !! k))))
        ∧ (∀ k, k ∉ keys → same_at s s' k).
Proof.
  intros Hm Hnd Hw Hnum.
  unfold incrObjectFieldBy. cbn [falsy_keyarg]. rewrite Hm. cbn [isNaN orb].
  unfold transaction.
  destruct (ensureLegacyObjectsType_writable keys s Hw)
    as (s1 & -> & Hh1 & Hreg & Hregout).
  cbn [rbind numeric_param]. unfold query_incrObjectFieldByMulti.
  destruct (incr_rows_distinct keys ∅ (legacy_hash s1) f (printed_value m) prev)
    as (h' & -> & Hin & Hout); [done|set_solver| |].
  { intros k Hk. rewrite Hh1. by apply Hnum. }
  cbn [rbind fst snd]. eexists.
  split; [|split]; cbn [legacy_object_live legacy_hash].
  - by rewrite <-list_fmap_compose.
  - intros k Hk. cbn [legacy_object_live legacy_hash].
    split; [by apply Hreg|]. by rewrite (Hin k Hk), Hh1.
  - intros k Hk. split; cbn [legacy_object_live legacy_hash].
    + by apply Hregout.
    + by rewrite Hout, Hh1.
Qed.



(** The results follow the array, not the keys' order in the store: after
    [k1] is raised to 1, the array [[k2, k1]] and the increment 5 give
    [[5, 6]]. *)
Example incrObjectFieldBy_array_order :
  let s1 := (incrObjectFieldBy db_k1_zero (KArr ["k1"]) "n" (VNum 1)).1 in
  (incrObjectFieldBy s1 (KArr ["k2"; "k1"]) "n" (VNum 5)).2
  = Ok (Value (INums [Num 5; Num 6])).
Proof. vm_compute. reflexivity. Qed.


(** ** Reading through the registry *)

Lemma live_hash_outer_document (s : db) (k : string) :
  live_hash_outer s k = hash_document s k.
Proof.
  unfold live_hash_outer, hash_document.
  destruct (legacy_object_live s !! k) as [[]|]; by case_decide.
Qed.

Lemma live_hash_rows_document (s : db) (k : string) :
  live_hash_rows s k = option_list (hash_document s k).
Proof.
  rewrite <-live_hash_outer_document. unfold live_hash_rows, live_hash_outer.
  destruct (legacy_object_live s !! k) as [[]|]; try done.
Qed.

(** ** Rows tagged with their input position *)

#[local] Instance ordinal_le_trans {A} : Transitive (@ordinal_le A).
Proof. intros x y z. unfold ordinal_le. lia. Qed.

#[local] Instance ordinal_le_total {A} : Total (@ordinal_le A).
Proof. intros x y. unfold ordinal_le. lia. Qed.

Lemma with_ordinality_fst {A} (l : list A) :
  (with_ordinality l).*1 = seq 1 (length l).
Proof. unfold with_ordinality. apply fst_zip. by rewrite length_seq. Qed.

Lemma with_ordinality_snd {A} (l : list A) : (with_ordinality l).*2 = l.
Proof. unfold with_ordinality. apply snd_zip. by rewrite length_seq. Qed.

Lemma ordinals_Sorted {A} (rows : list (nat * A)) (start : nat) :
  rows.*1 = seq start (length rows) → Sorted ordinal_le rows.
Proof.
  revert start. induction rows as [|r rows IH]; intros start Hseq.
  - constructor.
  - simpl in Hseq. injection Hseq as Hr Hrows. constructor.
    + by apply (IH (S start)).
    + destruct rows as [|r' rows]; constructor.
      simpl in Hrows. injection Hrows as Hr' _. unfold ordinal_le. lia.
Qed.

(** Sorting by the position tag undoes any rearrangement of tagged rows. *)
Lemma order_by_ordinal_restores {A} (rows joined : list (nat * A)) :
  rows.*1 = seq 1 (length rows) →
  joined ≡ₚ rows →
  order_by_ordinal joined = rows.
Proof.
  intros Hseq Hperm. unfold order_by_ordinal.
  assert (Hsorted : merge_sort ordinal_le joined ≡ₚ rows)
    by (by rewrite merge_sort_Permutation).
  apply (Sorted_unique_strong ordinal_le); [|apply Sorted_merge_sort, _| |done].
  - intros [i x] [j y] Hx Hy Hle Hge. unfold ordinal_le in *. simpl in *.
    assert (i = j) as -> by lia. f_equal.
    rewrite Hsorted in Hx.
    assert (Hnd : NoDup rows.*1) by (rewrite Hseq; apply NoDup_seq).
    apply list_elem_of_lookup in Hx as [n1 H1], Hy as [n2 H2].
    assert (n1 = n2) as ->; [|congruence].
    eapply NoDup_lookup; [exact Hnd|..]; rewrite list_lookup_fmap.
    + by rewrite H1.
    + by rewrite H2.
  - by eapply ordinals_Sorted.
Qed.

Section Batch_reads.

Variable join_order : ∀ A, list A → list A.
Hypothesis join_order_perm : ∀ A (l : list A), join_order A l ≡ₚ l.

Lemma ordered_join {A B} (g : A → B) (l : list A) :
  (order_by_ordinal
     (join_order _ ((λ r, (r.1, g r.2)) <$> with_ordinality l))).*2
  = g <$> l.
Proof.
  rewrite (order_by_ordinal_restores
             ((λ r, (r.1, g r.2)) <$> with_ordinality l)).
  - rewrite <-list_fmap_compose.
    rewrite <-(with_ordinality_snd l) at 2.
    by rewrite <-list_fmap_compose.
  - rewrite <-list_fmap_compose, length_fmap.
    unfold with_ordinality at 2. rewrite length_zip, length_seq, Nat.min_id.
    apply with_ordinality_fst.
  - apply join_order_perm.
Qed.

(** C4.  [getObjects] returns one result per element of [keys], at the
    element's position: the key's hash document, or [null] when the key has
    none (missing, or not registered as a hash).  A repeated key has a
    result at each of its positions; nothing is reordered or merged, in
    whatever order the joins deliver their rows. *)
Theorem getObjects_positional (s : db) (keys : list string) :
  keys ≠ [] →
  getObjects join_order s keys = (λ k, of_sql (hash_document s k)) <$> keys
  ∧ length (getObjects join_order s keys) = length keys
  ∧ ∀ i k, keys !! i = Some k →
      getObjects join_order s keys !! i = Some (of_sql (hash_document s k)).
Proof.
  intros Hne.
  assert (H : getObjects join_order s keys
              = (λ k, of_sql (hash_document s k)) <$> keys).
  { unfold getObjects, query_getObjects.
    destruct keys as [|k0 keys0]; [done|].
    rewrite ordered_join, <-list_fmap_compose.
    apply list_fmap_ext. intros _ k _. simpl.
    by rewrite live_hash_outer_document. }
  rewrite H. split_and!; [done|by rewrite length_fmap|].
  intros i k Hi. by rewrite list_lookup_fmap, Hi.
Qed.

End Batch_reads.

(** ** Single-key reads *)

Lemma falsy_Some (k : string) : k ≠ "" → falsy (Some k) = false.
Proof. intros Hk. simpl. by apply bool_decide_eq_false. Qed.

Lemma getObject_document (s : db) (k : string) :
  k ≠ "" → getObject s (Some k) = of_sql (hash_document s k).
Proof.
  intros Hk. unfold getObject, query_getObject. rewrite falsy_Some by done.
  simpl. rewrite live_hash_rows_document. by destruct (hash_document s k).
Qed.

Lemma jsonb_get_text_is_Some (d : document) (f : string) :
  is_Some (jsonb_get_text d f) ↔ has_value (Some d) f.
Proof.
  unfold jsonb_get_text, has_value. simpl. split.
  - destruct (d !! f) as [[|[]| |]|]; intros [t Ht]; try done; eauto.
  - intros (v & -> & Hv). destruct v as [|[]| |]; by eauto.
Qed.

Lemma getObjectField_document (s : db) (k f : string) :
  k ≠ "" →
  getObjectField s (Some k) f
  = of_sql (hash_document s k ≫= λ d, jsonb_get_text d f).
Proof.
  intros Hk. unfold getObjectField, query_getObjectField.
  rewrite falsy_Some by done. change (key_text (Some k)) with k.
  rewrite live_hash_rows_document. by destruct (hash_document s k).
Qed.

Lemma isObjectField_document (s : db) (k f : string) :
  k ≠ "" →
  isObjectField s (Some k) f
  = Value (bool_decide
             (is_Some (hash_document s k ≫= λ d, jsonb_get_text d f))).
Proof.
  intros Hk. unfold isObjectField, query_isObjectField.
  rewrite falsy_Some by done. change (key_text (Some k)) with k.
  rewrite live_hash_rows_document.
  destruct (hash_document s k) as [d|];
    cbn [option_list fmap list_fmap take mbind option_bind].
  - f_equal. unfold jsonb_exists.
    destruct (bool_decide (is_Some (jsonb_get_text d f))) eqn:Ht;
      [|by rewrite andb_false_r].
    rewrite andb_true_r. apply bool_decide_eq_true.
    apply bool_decide_eq_true in Ht.
    apply jsonb_get_text_is_Some in Ht as (v & Hv & _). simpl in Hv. by eauto.
  - reflexivity.
Qed.

Lemma requested_fold (data : option document) (fields : list string)
    (acc : document) (f : string) :
  foldl (λ acc r, <[r.1 := default JNull r.2]> acc) acc
        ((λ f, (f, data ≫= (.!! f))) <$> fields) !! f
  = if decide (f ∈ fields) then Some (default JNull (data ≫= (.!! f)))
    else acc !! f.
Proof.
  revert acc. induction fields as [|f' fs IH]; intros acc.
  - rewrite decide_False; [done|apply not_elem_of_nil].
  - rewrite fmap_cons. cbn [foldl fst snd]. rewrite IH. destruct (decide (f ∈ fs)) as [Hin|Hnin].
    + rewrite decide_True; [done|by right].
    + destruct (decide (f' = f)) as [->|Hne].
      * rewrite lookup_insert_eq, decide_True; [done|by left].
      * rewrite lookup_insert_ne, decide_False; [done| |done].
        by intros [->|?]%elem_of_cons.
Qed.

Lemma project_fields_lookup (data : option document) (fields : list string) :
  fields ≠ [] →
  ∃ m, project_fields data fields = Some m
       ∧ ∀ f, m !! f = requested data fields f.
Proof.
  intros Hne. destruct fields as [|f0 fs]; [done|].
  exists (foldl (λ acc r, <[r.1 := default JNull r.2]> acc) ∅
            ((λ f, (f, data ≫= (.!! f))) <$> f0 :: fs)).
  split; [done|]. intros f. rewrite requested_fold. unfold requested.
  by case_decide.
Qed.

(** *** The object built by the loop [obj[f] = null] *)

Lemma assign_null_own (fields : list string) (obj : object) (f : string) :
  f ≠ "__proto__" →
  own (foldl assign_null obj fields) !! f
  = if decide (f ∈ fields) then Some JNull else own obj !! f.
Proof.
  intros Hf. revert obj. induction fields as [|f' fs IH]; intros obj.
  - rewrite decide_False; [done|apply not_elem_of_nil].
  - cbn [foldl]. rewrite IH. destruct (decide (f ∈ fs)) as [Hin|Hnin].
    + rewrite decide_True; [done|by right].
    + unfold assign_null. destruct (decide (f' = f)) as [->|Hne].
      * rewrite decide_True by (by left).
        rewrite (bool_decide_eq_false_2 (f = "__proto__")) by done.
        cbn [andb own]. apply lookup_insert_eq.
      * rewrite decide_False by (by intros [->|?]%elem_of_cons).
        case_match; cbn [own]; [done|]. by rewrite lookup_insert_ne.
Qed.

Lemma assign_null_plain (fields : list string) (obj : object) :
  "__proto__" ∉ fields →
  null_prototype (foldl assign_null obj fields) = null_prototype obj
  ∧ own (foldl assign_null obj fields) !! "__proto__" = own obj !! "__proto__".
Proof.
  revert obj. induction fields as [|f fs IH]; intros obj Hnin; [done|].
  apply not_elem_of_cons in Hnin as [Hne Hnin]. cbn [foldl].
  destruct (IH (assign_null obj f) Hnin) as [-> ->]. unfold assign_null.
  rewrite (bool_decide_eq_false_2 (f = "__proto__")) by done.
  cbn [andb own null_prototype]. split; [done|]. by rewrite lookup_insert_ne.
Qed.

(** Without the name "__proto__" the loop builds the mapping of every
    requested field to [null]. *)
Lemma all_null_object (fields : list string) :
  "__proto__" ∉ fields →
  ∃ m, foldl assign_null (parsed ∅) fields = parsed m
       ∧ ∀ f, m !! f = requested None fields f.
Proof.
  intros Hnin. destruct (assign_null_plain fields (parsed ∅) Hnin) as [Hp Ho].
  exists (own (foldl assign_null (parsed ∅) fields)). split.
  - destruct (foldl assign_null (parsed ∅) fields) as [m p].
    cbn in Hp. by subst p.
  - intros f. unfold requested. cbn [mbind option_bind default].
    destruct (decide (f = "__proto__")) as [->|Hne].
    + rewrite Ho, decide_False by done. apply lookup_empty.
    + rewrite assign_null_own by done. by case_decide.
Qed.

Lemma assign_null_stays_null (obj : object) (f : string) :
  null_prototype obj = true → null_prototype (assign_null obj f) = true.
Proof.
  intros H. unfold assign_null. rewrite H. cbn [negb].
  by rewrite andb_false_r.
Qed.

(** With the name "__proto__" the loop leaves an object without
    prototype. *)
Lemma assign_null_prototype (fields : list string) (obj : object) :
  own obj !! "__proto__" = None ∨ null_prototype obj = true →
  "__proto__" ∈ fields →
  null_prototype (foldl assign_null obj fields) = true.
Proof.
  assert (Hstay : ∀ g o, null_prototype o = true →
            null_prototype (foldl assign_null o g) = true).
  { induction g as [|f' g IHg]; intros o Ho; [done|].
    cbn [foldl]. by apply IHg, assign_null_stays_null. }
  revert obj. induction fields as [|f fs IH]; intros obj Hinv Hin.
  - by apply elem_of_nil in Hin.
  - cbn [foldl]. destruct (decide (f = "__proto__")) as [->|Hne].
    + apply Hstay. destruct Hinv as [Hown|Hnull];
        [|by apply assign_null_stays_null].
      unfold assign_null.
      rewrite bool_decide_eq_true_2 by done.
      rewrite (bool_decide_eq_true_2 (own obj !! "__proto__" = None)) by done.
      by destruct (null_prototype obj).
    + apply IH; [|by apply elem_of_cons in Hin as [?|?]].
      unfold assign_null.
      rewrite (bool_decide_eq_false_2 (f = "__proto__")) by done.
      cbn [andb own null_prototype].
      destruct Hinv as [Hown|Hnull]; [left|by right].
      by rewrite lookup_insert_ne.
Qed.

(** The outcomes of [getObjectFields] for a non-empty key. *)
Lemma getObjectFields_document (s : db) (k : string) (fields : list string) :
  k ≠ "" →
  getObjectFields s (Some k) fields
  = match hash_document s k with
    | Some d => of_sql (parsed <$> project_fields (Some d) fields)
    | None => Value (foldl assign_null (parsed ∅) fields)
    end.
Proof.
  intros Hk. unfold getObjectFields, query_getObjectFields.
  rewrite falsy_Some by done. simpl. rewrite live_hash_rows_document.
  by destruct (hash_document s k).
Qed.

Lemma getObjectFields_cases (s : db) (k : string) (fields : list string) :
  k ≠ "" →
  (is_Some (hash_document s k) → fields ≠ []) →
  (hash_document s k = None → "__proto__" ∉ fields) →
  ∃ m, getObjectFields s (Some k) fields = Value (parsed m)
       ∧ ∀ f, m !! f = requested (hash_document s k) fields f.
Proof.
  intros Hk Hne Hproto. rewrite getObjectFields_document by done.
  destruct (hash_document s k) as [d|] eqn:Hd.
  - destruct (project_fields_lookup (Some d) fields) as (m & -> & Hm);
      [by eauto|]. by exists m.
  - destruct (all_null_object fields) as (m & -> & Hm); [by auto|].
    by exists m.
Qed.

(** *** Calls of [hasOwnProperty] *)

Lemma rmap_ok {A B} (f : A → result B) (g : A → B) (l : list A) :
  (∀ x, x ∈ l → f x = Ok (g x)) → rmap f l = Ok (g <$> l).
Proof.
  induction l as [|x l IH]; intros H; [done|]. cbn [rmap].
  rewrite H by (by left). cbn [rbind]. rewrite IH; [done|].
  intros y Hy. apply H. by right.
Qed.

Lemma hasOwnProperty_plain (m : document) (f : string) :
  m !! "hasOwnProperty" = None →
  hasOwnProperty (parsed m) f = Ok (bool_decide (is_Some (m !! f))).
Proof. intros H. unfold hasOwnProperty. cbn [own parsed]. by rewrite H. Qed.

Lemma hasOwnProperty_shadowed (obj : object) (f : string) :
  is_Some (own obj !! "hasOwnProperty") ∨ null_prototype obj = true →
  hasOwnProperty obj f = Err (TypeError "hasOwnProperty").
Proof.
  unfold hasOwnProperty. intros [[v ->]| ->]; [done|].
  by destruct (own obj !! "hasOwnProperty").
Qed.

Lemma isObjectFields_plain (s : db) (k : string) (fields : list string)
    (m : document) :
  k ≠ "" →
  getObjectFields s (Some k) fields = Value (parsed m) →
  m !! "hasOwnProperty" = None →
  isObjectFields s (Some k) fields
  = Ok (Value ((λ f, bool_decide (is_Some (m !! f))
                     && bool_decide (m !! f ≠ Some JNull)) <$> fields)).
Proof.
  intros Hk Hm Hshadow. unfold isObjectFields.
  rewrite falsy_Some, Hm by done.
  rewrite (rmap_ok _ (λ f, bool_decide (is_Some (m !! f))
                           && bool_decide (m !! f ≠ Some JNull))); [done|].
  intros f _. by rewrite hasOwnProperty_plain.
Qed.

Lemma all_false (fields : list string) (bs : list bool) :
  Forall2 (λ _ b, b = false) fields bs → bs = replicate (length fields) false.
Proof. induction 1; simpl; congruence. Qed.

Lemma isObjectField_value (s : db) (k field : string) :
  k ≠ "" →
  ∃ b, isObjectField s (Some k) field = Value b
       ∧ (b = true ↔ has_value (hash_document s k) field).
Proof.
  intros Hk.
  unfold isObjectField, query_isObjectField. rewrite falsy_Some by done.
  simpl. rewrite live_hash_rows_document.
  destruct (hash_document s k) as [d|]; simpl.
  - eexists. split; [done|].
    rewrite andb_true_iff, !bool_decide_eq_true, jsonb_get_text_is_Some.
    unfold jsonb_exists, has_value. simpl. split; [by intros []|].
    intros (v & Hv & ?). split; [|by eauto].
    apply bool_decide_eq_true. by eauto.
  - exists false. split; [done|]. split; [done|]. by intros (v & ? & _).
Qed.

(** X21.  For a non-empty key, [isObjectField] returns true exactly when the
    field is present in the key's hash document with a value other than
    [null]; so it returns false for a key without document, for a missing
    field and for a field holding [null].  When no requested field is named
    hasOwnProperty, and none is named __proto__ on a key without document,
    [isObjectFields] returns one such boolean per requested field, in the
    order of [fields], and all false when the key has no document. *)
Theorem isObjectField_has_value (s : db) (k field : string)
    (fields : list string) :
  k ≠ "" →
  "hasOwnProperty" ∉ fields →
  (hash_document s k = None → "__proto__" ∉ fields) →
  (∃ b, isObjectField s (Some k) field = Value b
        ∧ (b = true ↔ has_value (hash_document s k) field))
  ∧ (∀ d, hash_document s k = Some d →
       d !! field = None ∨ d !! field = Some JNull →
       isObjectField s (Some k) field = Value false)
  ∧ (∃ bs, isObjectFields s (Some k) fields = Ok (Value bs)
           ∧ Forall2 (λ f b, b = true ↔ has_value (hash_document s k) f)
                     fields bs)
  ∧ (hash_document s k = None →
       isObjectField s (Some k) field = Value false
       ∧ isObjectFields s (Some k) fields
         = Ok (Value (replicate (length fields) false))).
Proof.
  intros Hk Hshadow Hproto.
  pose proof (isObjectField_value s k field Hk) as Hone.
  assert (Hall : ∃ bs, isObjectFields s (Some k) fields = Ok (Value bs)
      ∧ Forall2 (λ f b, b = true ↔ has_value (hash_document s k) f) fields bs).
  { destruct fields as [|f0 fs].
    - exists []. split; [|constructor]. unfold isObjectFields.
      rewrite falsy_Some, getObjectFields_document by done.
      by destruct (hash_document s k).
    - destruct (getObjectFields_cases s k (f0 :: fs) Hk) as (m & Hm & Hlook);
        [done..|].
      rewrite (isObjectFields_plain s k _ m Hk Hm).
      2:{ rewrite Hlook. unfold requested. by rewrite decide_False. }
      eexists. split; [done|].
      apply Forall2_fmap_r, Forall_Forall2_diag, Forall_forall.
      intros f Hf. simpl. rewrite Hlook. unfold requested, has_value.
      rewrite decide_True by done.
      rewrite andb_true_iff, !bool_decide_eq_true.
      destruct (hash_document s k ≫= (.!! f)) as [v|]; simpl.
      + split.
        * intros [_ Hv]. exists v. split; [done|congruence].
        * intros (v' & [= <-] & Hv). split; [by eauto|congruence].
      + split; [by intros [_ ?]|by intros (v & ? & _)]. }
  split_and!; [done| |done|].
  - intros d Hd Hf. destruct Hone as (b & -> & Hb). f_equal.
    destruct b; [|done]. destruct Hb as [(v & Hv & Hnn) _]; [done|].
    rewrite Hd in Hv. simpl in Hv. destruct Hf; congruence.
  - intros Hnone. destruct Hone as (b & -> & Hb), Hall as (bs & -> & Hbs).
    rewrite Hnone in Hb, Hbs.
    assert (Hno : ∀ f, ¬ has_value None f) by (by intros f (v & ? & _)).
    split; do 2 f_equal.
    + destruct b; [|done]. exfalso. by apply (Hno field), Hb.
    + apply all_false. eapply Forall2_impl; [exact Hbs|].
      intros f b' Hb'. simpl in Hb'. destruct b'; [|done].
      exfalso. by apply (Hno f), Hb'.
Qed.

(** C2.  [isObjectFields] fails where the claim has it return booleans:
    [data.hasOwnProperty(field)] (line 259) is called on the object that
    holds every requested field as a property of its own, so a requested
    field named hasOwnProperty shadows the method, and on a key without
    document the requested name __proto__ has taken the prototype, and the
    method with it, from the object of lines 139-144.  [isObjectField], in
    SQL, answers for the same fields. *)
Lemma isObjectFields_method_lost :
  hash_document db_k1_zero "k1" = Some {["n" := JNum 0]}
  ∧ isObjectFields db_k1_zero (Some "k1") ["n"; "hasOwnProperty"]
    = Err (TypeError "hasOwnProperty")
  ∧ isObjectField db_k1_zero (Some "k1") "n" = Value true
  ∧ isObjectField db_k1_zero (Some "k1") "hasOwnProperty" = Value false
  ∧ hash_document db_k1_zero "k2" = None
  ∧ isObjectFields db_k1_zero (Some "k2") ["n"; "hasOwnProperty"]
    = Err (TypeError "hasOwnProperty")
  ∧ isObjectFields db_k1_zero (Some "k2") ["n"; "__proto__"]
    = Err (TypeError "hasOwnProperty")
  ∧ isObjectField db_k1_zero (Some "k2") "__proto__" = Value false.
Proof. split_and!; vm_compute; reflexivity. Qed.

(** X22.  For a non-empty key, a non-empty list of requested fields when the
    key has a hash document, and no requested field named __proto__ when it
    has none, [getObjectFields] returns a plain object whose properties are
    exactly the requested field names, each with the field's value, or
    [null] for a field the document lacks.  For a key without hash document
    every requested field maps to [null] (the result is a mapping, not
    [null]), while [getObject] returns [null] for that key. *)
Theorem getObjectFields_requested (s : db) (k : string)
    (fields : list string) :
  k ≠ "" →
  (is_Some (hash_document s k) → fields ≠ []) →
  (hash_document s k = None → "__proto__" ∉ fields) →
  ∃ m, getObjectFields s (Some k) fields = Value (parsed m)
       ∧ dom m = list_to_set fields
       ∧ (∀ f, f ∈ fields →
            m !! f = Some (default JNull (hash_document s k ≫= (.!! f))))
       ∧ (hash_document s k = None →
            getObject s (Some k) = Null
            ∧ ∀ f, f ∈ fields → m !! f = Some JNull).
Proof.
  intros Hk Hne Hproto.
  destruct (getObjectFields_cases s k fields Hk Hne Hproto) as (m & Hm & Hlook).
  exists m. split_and!; [done| | |].
  - apply set_eq. intros f.
    rewrite elem_of_dom, elem_of_list_to_set, Hlook. unfold requested.
    case_decide; [split; by eauto|split; [by intros [? ?]|done]].
  - intros f Hf. rewrite Hlook. unfold requested. by rewrite decide_True.
  - intros Hnone. split.
    + by rewrite getObject_document, Hnone.
    + intros f Hf. rewrite Hlook, Hnone. unfold requested.
      by rewrite decide_True.
Qed.

(** C5.  [getObjectFields] fails to return a mapping for an empty list of
    fields on a key that has a document: the aggregate over no rows is NULL
    and the result is [null], where the branch for a key without document
    returns the empty mapping for the same list (and the statement of
    [deleteObjectFields] wraps the same aggregate in COALESCE).  On a key
    without document the requested name __proto__ is missing from the
    mapping: the assignment [obj[f] = null] takes the prototype away and
    creates no property. *)
Lemma getObjectFields_no_fields :
  hash_document db_k1_zero "k1" = Some {["n" := JNum 0]}
  ∧ getObjectFields db_k1_zero (Some "k1") [] = Null
  ∧ (¬ ∃ m, getObjectFields db_k1_zero (Some "k1") [] = Value m)
  ∧ hash_document db_k1_zero "k2" = None
  ∧ getObjectFields db_k1_zero (Some "k2") [] = Value (parsed ∅)
  ∧ getObjectFields db_k1_zero (Some "k2") ["__proto__"]
    = Value (Object ∅ true)
  ∧ getObjectFields db_k1_zero (Some "k1") ["__proto__"]
    = Value (parsed {["__proto__" := JNull]}).
Proof.
  assert (H : getObjectFields db_k1_zero (Some "k1") [] = Null)
    by (vm_compute; reflexivity).
  split_and!; try (vm_compute; reflexivity).
  rewrite H. by intros [m ?].
Qed.

(** ** Field names *)

Lemma jsonb_object_keys_Permutation (d : document) :
  jsonb_object_keys d ≡ₚ (map_to_list d).*1.
Proof. apply merge_sort_Permutation. Qed.

Lemma elem_of_jsonb_object_keys (d : document) (f : string) :
  f ∈ jsonb_object_keys d ↔ is_Some (d !! f).
Proof.
  rewrite jsonb_object_keys_Permutation, list_elem_of_fmap. split.
  - intros ([f' v] & -> & Hin%elem_of_map_to_list). by eauto.
  - intros [v Hv]. exists (f, v). split; [done|by apply elem_of_map_to_list].
Qed.

Lemma NoDup_jsonb_object_keys (d : document) : NoDup (jsonb_object_keys d).
Proof.
  rewrite jsonb_object_keys_Permutation. apply NoDup_fst_map_to_list.
Qed.

Lemma jsonb_object_keys_empty : jsonb_object_keys ∅ = [].
Proof. unfold jsonb_object_keys. by rewrite map_to_list_empty. Qed.

(** C8.  [getObjectKeys] returns the field names of the key's hash document
    (each once); the empty sequence for a non-empty key without document; and
    [undefined], which is not the empty sequence, when the key argument is
    absent or empty. *)
Theorem getObjectKeys_names_or_unset (s : db) (k : string) :
  k ≠ "" →
  getObjectKeys s None = Undefined
  ∧ getObjectKeys s (Some "") = Undefined
  ∧ (∃ ks, getObjectKeys s (Some k) = Value ks
           ∧ NoDup ks
           ∧ (∀ f, f ∈ ks ↔
                ∃ d, hash_document s k = Some d ∧ is_Some (d !! f))
           ∧ (hash_document s k = None → ks = []))
  ∧ @Undefined (list string) ≠ Value [].
Proof.
  intros Hk. split_and!; [done|done| |done].
  unfold getObjectKeys, query_getObjectKeys. rewrite falsy_Some by done.
  simpl. rewrite live_hash_rows_document.
  destruct (hash_document s k) as [d|]; simpl.
  - eexists. split_and!; [done| | |done].
    + apply NoDup_jsonb_object_keys.
    + intros f. rewrite elem_of_jsonb_object_keys. split.
      * by eauto.
      * by intros (d' & [= <-] & Hv).
  - exists []. split_and!; [done|constructor| |done].
    intros f. split; [by intros ?%elem_of_nil|by intros (d & ? & _)].
Qed.

Lemma getObjectKeys_document (s : db) (k : string) :
  k ≠ "" →
  getObjectKeys s (Some k)
  = Value (from_option jsonb_object_keys [] (hash_document s k)).
Proof.
  intros Hk. unfold getObjectKeys, query_getObjectKeys.
  rewrite falsy_Some by done. simpl. rewrite live_hash_rows_document.
  by destruct (hash_document s k).
Qed.

(** ** Deleting fields *)

Lemma agg_fold_list_to_map (l : list (string * json)) (acc : document) :
  NoDup l.*1 →
  foldl (λ acc r, <[r.1 := default JNull r.2]> acc) acc
        ((λ kv, (kv.1, Some kv.2)) <$> l)
  = list_to_map l ∪ acc.
Proof.
  revert acc. induction l as [|[f v] l IH]; intros acc Hnd.
  - by rewrite list_to_map_nil, (left_id_L ∅ (∪)).
  - rewrite fmap_cons in Hnd. apply NoDup_cons in Hnd as [Hf Hnd].
    rewrite fmap_cons, list_to_map_cons. cbn [foldl fst snd default].
    rewrite IH by done.
    rewrite <-insert_union_r by (by apply not_elem_of_list_to_map_1).
    by rewrite insert_union_l.
Qed.

Lemma agg_list_to_map (l : list (string * json)) :
  NoDup l.*1 →
  COALESCE (jsonb_object_agg ((λ kv, (kv.1, Some kv.2)) <$> l)) ∅
  = list_to_map l.
Proof.
  intros Hnd. destruct l as [|r l]; [done|].
  change (COALESCE (jsonb_object_agg ((λ kv, (kv.1, Some kv.2)) <$> r :: l)) ∅)
    with (foldl (λ acc r, <[r.1 := default JNull r.2]> acc) (∅ : document)
            ((λ kv : string * json, (kv.1, Some kv.2)) <$> r :: l)).
  rewrite agg_fold_list_to_map by done.
  by rewrite (right_id_L ∅ (∪)).
Qed.

Lemma query_deleteObjectFields_row (s : db) (k : string)
    (fields : list string) :
  legacy_object_live (query_deleteObjectFields s k fields)
  = legacy_object_live s
  ∧ legacy_hash (query_deleteObjectFields s k fields)
    = match legacy_hash s !! k with
      | Some d => <[k := filter (λ kv, kv.1 ∉ fields) d]> (legacy_hash s)
      | None => legacy_hash s
      end.
Proof.
  unfold query_deleteObjectFields.
  destruct (legacy_hash s !! k) as [d|]; [|done]. cbn [legacy_object_live legacy_hash].
  split; [done|]. f_equal. unfold jsonb_each.
  rewrite agg_list_to_map; [by rewrite <-map_filter_alt|].
  apply (sublist_NoDup _ (map_to_list d).*1).
  - apply NoDup_fst_map_to_list.
  - apply fmap_sublist, sublist_filter.
Qed.

(** C7.  For a non-empty key, [deleteObjectFields] removes exactly the named
    fields from the key's row and keeps every other field with its value;
    the registry and the other rows are unchanged.  When every field of the
    document is named, the document becomes the empty object: the
    registration stays, [getObject] returns the empty object and
    [getObjectKeys] the empty sequence. *)
Theorem deleteObjectFields_removes (s : db) (k : string)
    (fields : list string) :
  k ≠ "" →
  ∃ s', deleteObjectFields s (Some k) fields = (s', Ok Undefined)
        ∧ legacy_object_live s' = legacy_object_live s
        ∧ (∀ k', k' ≠ k → legacy_hash s' !! k' = legacy_hash s !! k')
        ∧ (∀ d, legacy_hash s !! k = Some d →
             ∃ d', legacy_hash s' !! k = Some d'
                   ∧ ∀ f, d' !! f = if decide (f ∈ fields) then None
                                    else d !! f)
        ∧ (∀ d, hash_document s k = Some d →
             (∀ f, is_Some (d !! f) → f ∈ fields) →
             hash_document s' k = Some ∅
             ∧ getObject s' (Some k) = Value ∅
             ∧ getObjectKeys s' (Some k) = Value []).
Proof.
  intros Hk.
  assert (Hrow : ∃ s', deleteObjectFields s (Some k) fields = (s', Ok Undefined)
    ∧ legacy_object_live s' = legacy_object_live s
    ∧ (∀ k', k' ≠ k → legacy_hash s' !! k' = legacy_hash s !! k')
    ∧ (∀ d, legacy_hash s !! k = Some d →
         ∃ d', legacy_hash s' !! k = Some d'
               ∧ ∀ f, d' !! f = if decide (f ∈ fields) then None else d !! f)).
  { unfold deleteObjectFields. rewrite falsy_Some by done.
    destruct fields as [|f0 fs].
    - exists s. split_and!; [done..|]. intros d Hd. exists d. split; [done|].
      intros f. rewrite decide_False; [done|apply not_elem_of_nil].
    - change (key_text (Some k)) with k.
      rewrite bool_decide_eq_false_2 by done. cbn [orb].
      destruct (query_deleteObjectFields_row s k (f0 :: fs)) as [Hreg Hhash].
      exists (query_deleteObjectFields s k (f0 :: fs)).
      split_and!; [done|done| |].
      + intros k' Hne. rewrite Hhash.
        destruct (legacy_hash s !! k); [|done]. by rewrite lookup_insert_ne.
      + intros d Hd. rewrite Hhash, Hd, lookup_insert_eq.
        eexists. split; [done|]. intros f.
        rewrite map_lookup_filter. case_decide as Hin.
        * destruct (d !! f); [|done]. simpl. by rewrite option_guard_False by eauto.
        * destruct (d !! f); [|done]. simpl. by rewrite option_guard_True. }
  destruct Hrow as (s' & Hdel & Hreg & Hother & Hk').
  exists s'. split_and!; [done..|].
  intros d Hd Hall. unfold hash_document in Hd. case_decide as Hlive; [|done].
  destruct (Hk' d Hd) as (d' & Hd' & Hlook).
  assert (d' = ∅) as ->.
  { apply map_eq. intros f. rewrite Hlook, lookup_empty.
    case_decide as Hin; [done|].
    destruct (d !! f) eqn:Hf; [|done]. destruct Hin. apply Hall. by eauto. }
  assert (Hdoc : hash_document s' k = Some ∅).
  { unfold hash_document. rewrite Hreg. by rewrite decide_True. }
  split_and!; [done| |].
  - by rewrite getObject_document, Hdoc.
  - rewrite getObjectKeys_document, Hdoc by done. simpl.
    by rewrite jsonb_object_keys_empty.
Qed.

(** ** Merging a mapping *)

Lemma strip_empty_field_insert (hp : heap) (l : loc) (o : document) :
  hp !! l = Some o → o !! "hasOwnProperty" = None →
  strip_empty_field hp l = Ok (<[l := delete "" o]> hp).
Proof.
  intros Hl Hshadow. unfold strip_empty_field.
  rewrite (lookup_total_correct hp l o Hl), hasOwnProperty_plain by done.
  cbn [rbind]. f_equal. case_bool_decide as Hempty; [done|].
  rewrite delete_id; [by rewrite insert_id|].
  by apply eq_None_not_Some.
Qed.

Lemma setObject_heap (hp : heap) (s : db) (k : string) (l : loc)
    (o : document) :
  k ≠ "" → hp !! l = Some o → o !! "hasOwnProperty" = None →
  (setObject hp s (Some k) (Some l)).1 = <[l := delete "" o]> hp.
Proof.
  intros Hk Hl Hshadow. unfold setObject.
  by rewrite falsy_Some, (strip_empty_field_insert hp l o).
Qed.

Lemma setObject_writable (hp : heap) (s : db) (k : string) (l : loc)
    (o : document) :
  k ≠ "" → writable s k → hp !! l = Some o →
  o !! "hasOwnProperty" = None →
  setObject hp s (Some k) (Some l)
  = (<[l := delete "" o]> hp,
     (Db (<[k := THash]> (legacy_object_live s))
         (<[k := delete "" o ∪ default ∅ (legacy_hash s !! k)]> (legacy_hash s)),
      Ok Undefined)).
Proof.
  intros Hk Hw Hl Hshadow. unfold setObject. rewrite falsy_Some by done.
  rewrite (strip_empty_field_insert hp l o Hl Hshadow), lookup_total_insert_eq.
  f_equal. unfold transaction.
  destruct (ensureLegacyObjectType_writable s k Hw) as (s1 & -> & Hh & Hreg).
  cbn [rbind]. unfold query_setObject. rewrite Hh, Hreg.
  change (key_text (Some k)) with k.
  destruct (legacy_hash s !! k) as [old|]; [done|].
  cbn [default]. by rewrite (right_id_L ∅ (∪)).
Qed.

Lemma setObject_writable_document (hp : heap) (s : db) (k : string) (l : loc)
    (o : document) :
  k ≠ "" → writable s k → hp !! l = Some o →
  o !! "hasOwnProperty" = None →
  writable (setObject hp s (Some k) (Some l)).2.1 k
  ∧ hash_document (setObject hp s (Some k) (Some l)).2.1 k
    = Some (delete "" o ∪ default ∅ (legacy_hash s !! k)).
Proof.
  intros Hk Hw Hl Hshadow. rewrite (setObject_writable hp s k l o) by done.
  unfold writable, hash_document. cbn [fst snd legacy_object_live legacy_hash].
  rewrite !lookup_insert_eq. split; [by right|]. by rewrite decide_True.
Qed.

(** [setObject] with an object that has a property of its own named
    hasOwnProperty: line 11 calls that property. *)
Lemma setObject_shadowed (hp : heap) (s : db) (k : string) (l : loc)
    (o : document) :
  k ≠ "" → hp !! l = Some o → is_Some (o !! "hasOwnProperty") →
  setObject hp s (Some k) (Some l)
  = (hp, (s, Err (TypeError "hasOwnProperty"))).
Proof.
  intros Hk Hl Hshadow. unfold setObject, strip_empty_field.
  rewrite falsy_Some, (lookup_total_correct hp l o Hl) by done.
  by rewrite hasOwnProperty_shadowed by (by left).
Qed.

(** X19.  For a non-empty key that is unregistered or a hash, and for
    objects without a property named hasOwnProperty, [setObject(k, d1)]
    followed by [setObject(k, d2)] leaves the document that has the fields
    of [d2], then those of [d1], then those of the row before the two calls,
    in each case without the field named by the empty string: every field
    named in [d2] other than that one holds its [d2] value, and every other
    field is as it was after the first call. *)
Theorem setObject_merges (hp : heap) (s : db) (k : string) (l1 l2 : loc)
    (d1 d2 : document) (hp1 hp2 : heap) (s1 s2 : db)
    (r1 r2 : result (js unit)) :
  k ≠ "" → writable s k →
  hp !! l1 = Some d1 → d1 !! "hasOwnProperty" = None →
  setObject hp s (Some k) (Some l1) = (hp1, (s1, r1)) →
  hp1 !! l2 = Some d2 → d2 !! "hasOwnProperty" = None →
  setObject hp1 s1 (Some k) (Some l2) = (hp2, (s2, r2)) →
  r1 = Ok Undefined ∧ r2 = Ok Undefined
  ∧ ∃ doc1 doc2,
      doc1 = delete "" d1 ∪ default ∅ (legacy_hash s !! k)
      ∧ doc2 = delete "" d2 ∪ doc1
      ∧ getObject s1 (Some k) = Value doc1
      ∧ getObject s2 (Some k) = Value doc2
      ∧ (∀ f v, f ≠ "" → d2 !! f = Some v → doc2 !! f = Some v)
      ∧ (∀ f, d2 !! f = None → doc2 !! f = doc1 !! f)
      ∧ doc2 !! "" = doc1 !! "".
Proof.
  intros Hk Hw Hl1 Hsh1 Hset1 Hl2 Hsh2 Hset2.
  destruct (setObject_writable_document hp s k l1 d1) as [Hw1 Hdoc1]; [done..|].
  pose proof (setObject_writable hp s k l1 d1 Hk Hw Hl1 Hsh1) as H1.
  rewrite Hset1 in Hw1, Hdoc1, H1. cbn [fst snd] in Hw1, Hdoc1.
  destruct (setObject_writable_document hp1 s1 k l2 d2) as [_ Hdoc2]; [done..|].
  pose proof (setObject_writable hp1 s1 k l2 d2 Hk Hw1 Hl2 Hsh2) as H2.
  rewrite Hset2 in Hdoc2, H2. cbn [fst snd] in Hdoc2.
  split; [congruence|]. split; [congruence|].
  assert (Hrow1 : legacy_hash s1 !! k
                  = Some (delete "" d1 ∪ default ∅ (legacy_hash s !! k))).
  { unfold hash_document in Hdoc1. by case_decide. }
  rewrite Hrow1 in Hdoc2. cbn [default] in Hdoc2.
  eexists _, _. rewrite !getObject_document, Hdoc1, Hdoc2 by done.
  split_and!; [done|done|done|done| | |].
  - intros f v Hf Hv. apply lookup_union_Some_l.
    by rewrite lookup_delete_ne.
  - intros f Hf. apply lookup_union_r.
    destruct (decide (f = "")) as [->|Hne].
    + apply lookup_delete_eq.
    + by rewrite lookup_delete_ne.
  - apply lookup_union_r, lookup_delete_eq.
Qed.

(** The merge law of the specification: [{a:1}] then [{b:2}]. *)
Example setObject_merge_law :
  let r1 := setObject heap_a_b empty_db (Some "k") (Some 0%nat) in
  let r2 := setObject r1.1 r1.2.1 (Some "k") (Some 1%nat) in
  getObject r2.2.1 (Some "k") = Value {["a" := JNum 1; "b" := JNum 2]}.
Proof. vm_compute. reflexivity. Qed.

(** The field named by the empty string is not stored. *)
Example setObject_drops_empty_field :
  let r1 := setObject heap_a_empty empty_db (Some "k") (Some 0%nat) in
  let r2 := setObject r1.1 r1.2.1 (Some "k") (Some 1%nat) in
  r1.1 !! 1%nat = Some ({["" := JNum 1]} : document)
  ∧ getObject r2.2.1 (Some "k") = Value {["a" := JNum 1]}.
Proof. intros r1 r2. split; vm_compute; reflexivity. Qed.

(** C3.  The merge fails for a mapping with a field named hasOwnProperty:
    after [setObject(k, {a: 1})], [setObject(k, {b: 2, hasOwnProperty: 3})]
    throws at line 11, where the field shadows the method that is called,
    and writes nothing, so the fields named in the mapping do not hold its
    values.  [setObjectField] stores a field of that name. *)
Lemma setObject_merge_method_lost :
  let r1 := setObject heap_a_shadow empty_db (Some "k") (Some 0%nat) in
  let r2 := setObject r1.1 r1.2.1 (Some "k") (Some 1%nat) in
  r1.2.2 = Ok Undefined
  ∧ r1.1 !! 1%nat
    = Some ({["b" := JNum 2; "hasOwnProperty" := JNum 3]} : document)
  ∧ r2.2.2 = Err (TypeError "hasOwnProperty")
  ∧ r2.2.1 = r1.2.1
  ∧ getObject r2.2.1 (Some "k") = Value {["a" := JNum 1]}
  ∧ getObjectField r2.2.1 (Some "k") "b" = Null
  ∧ getObjectField r2.2.1 (Some "k") "hasOwnProperty" = Null
  ∧ setObjectField r1.2.1 (Some "k") "hasOwnProperty" (JNum 3)
    = (Db {["k" := THash]}
          {["k" := {["a" := JNum 1; "hasOwnProperty" := JNum 3]}]},
       Ok Undefined).
Proof. intros r1 r2. split_and!; vm_compute; reflexivity. Qed.

(** X20.  For a non-empty key and an object without a property named
    hasOwnProperty, [setObject] deletes the property named by the empty
    string from the object its caller passed: after the call that object has
    no such property and its other properties are as before; an object
    without that property, and every other object, is unchanged.  The
    document is persisted from the object after the deletion. *)
Theorem setObject_strips_argument (hp : heap) (s : db) (k : string)
    (l : loc) (o : document) :
  k ≠ "" → hp !! l = Some o → o !! "hasOwnProperty" = None →
  ∃ o', (setObject hp s (Some k) (Some l)).1 !! l = Some o'
        ∧ o' !! "" = None
        ∧ (∀ f, f ≠ "" → o' !! f = o !! f)
        ∧ (∀ l', l' ≠ l →
             (setObject hp s (Some k) (Some l)).1 !! l' = hp !! l')
        ∧ (o !! "" = None → (setObject hp s (Some k) (Some l)).1 = hp)
        ∧ (writable s k →
             hash_document (setObject hp s (Some k) (Some l)).2.1 k
             = Some (o' ∪ default ∅ (legacy_hash s !! k))).
Proof.
  intros Hk Hl Hshadow. rewrite (setObject_heap hp s k l o) by done.
  exists (delete "" o). split_and!.
  - apply lookup_insert_eq.
  - apply lookup_delete_eq.
  - intros f Hf. by rewrite lookup_delete_ne.
  - intros l' Hne. by rewrite lookup_insert_ne.
  - intros Hnone. rewrite delete_id by done. by apply insert_id.
  - intros Hw. by apply setObject_writable_document.
Qed.

(** C10.  [setObject] fails to delete the property named by the empty string
    from an object that also has a property named hasOwnProperty: line 11
    calls that property, the call throws before the deletion and before the
    write, and the caller's object keeps the property. *)
Lemma setObject_strip_method_lost :
  heap_empty_shadow !! 0%nat
  = Some ({["" := JNum 1; "hasOwnProperty" := JNum 3]} : document)
  ∧ setObject heap_empty_shadow empty_db (Some "k") (Some 0%nat)
    = (heap_empty_shadow, (empty_db, Err (TypeError "hasOwnProperty")))
  ∧ (setObject heap_empty_shadow empty_db (Some "k") (Some 0%nat)).1
      !! 0%nat ≫= (.!! "")
    = Some (JNum 1).
Proof. split_and!; vm_compute; reflexivity. Qed.

(** ** Guards *)

(** X23.  Each operation is silent under its own guard: it writes nothing,
    raises nothing and returns its default.  The guards are: an empty or
    absent key for every operation that takes one key except
    [setObjectField]; absent data for [setObject]; an empty field name for
    [setObjectField]; an empty list of fields for [deleteObjectFields]; an
    empty or absent key, or an increment in which [parseInt] finds no
    number, for [incrObjectFieldBy]; an empty array of keys for the batch
    reads. *)
Theorem guarded_calls_are_silent (join_order : ∀ A, list A → list A)
    (hp : heap) (s : db) (key : option string) (data : option loc)
    (field : string) (fields : list string) (value : json) (delta : jsval)
    (karg : keyarg) :
  falsy key = true →
  parseInt delta = NaN →
  setObject hp s key data = (hp, (s, Ok Undefined))
  ∧ (∀ key', setObject hp s key' None = (hp, (s, Ok Undefined)))
  ∧ (∀ key', setObjectField s key' "" value = (s, Ok Undefined))
  ∧ getObject s key = Null
  ∧ getObjectField s key field = Null
  ∧ getObjectFields s key fields = Null
  ∧ getObjectKeys s key = Undefined
  ∧ getObjectValues s key = Ok []
  ∧ isObjectField s key field = Undefined
  ∧ isObjectFields s key fields = Ok Undefined
  ∧ deleteObjectFields s key fields = (s, Ok Undefined)
  ∧ deleteObjectField s key field = (s, Ok Undefined)
  ∧ (∀ key', deleteObjectFields s key' [] = (s, Ok Undefined))
  ∧ (∀ delta', incrObjectFieldBy s KAbsent field delta' = (s, Ok Null))
  ∧ (∀ delta', incrObjectFieldBy s (KStr "") field delta' = (s, Ok Null))
  ∧ incrObjectFieldBy s karg field delta = (s, Ok Null)
  ∧ getObjects join_order s [] = []
  ∧ getObjectsFields join_order s [] fields = [].
Proof.
  intros Hkey Hdelta.
  unfold setObject, setObjectField, getObject, getObjectField,
    getObjectFields, getObjectKeys, getObjectValues, isObjectField,
    isObjectFields, deleteObjectField, deleteObjectFields, incrObjectFieldBy,
    getObject.
  rewrite Hkey, Hdelta. split_and!; try done.
  - by destruct data.
  - intros key'. by destruct (falsy key').
  - by destruct (falsy_keyarg karg).
Qed.

(** C6.  [setObjectField] has no guard on the key, where [setObject] and the
    other operations have one: with the empty string as key and a field name
    that is not empty it registers that key and writes its row.  The reads
    and the deletion of one key return at their guard for that key, so they
    neither show nor remove what was written. *)
Lemma setObjectField_empty_key_writes :
  falsy (Some "") = true
  ∧ setObjectField empty_db (Some "") "f" (JNum 1)
    = (Db {["" := THash]} {["" := {["f" := JNum 1]}]}, Ok Undefined)
  ∧ legacy_hash (setObjectField empty_db (Some "") "f" (JNum 1)).1 !! ""
    = Some {["f" := JNum 1]}
  ∧ legacy_hash empty_db !! "" = None
  ∧ (setObjectField empty_db (Some "") "f" (JNum 1)).1 ≠ empty_db
  ∧ setObject heap_a_b empty_db (Some "") (Some 0%nat)
    = (heap_a_b, (empty_db, Ok Undefined))
  ∧ (let s' := (setObjectField empty_db (Some "") "f" (JNum 1)).1 in
     getObject s' (Some "") = Null
     ∧ getObjectField s' (Some "") "f" = Null
     ∧ deleteObjectField s' (Some "") "f" = (s', Ok Undefined)).
Proof.
  split_and!; try (vm_compute; reflexivity).
  - intros Heq. apply (f_equal (λ s, legacy_hash s !! "")) in Heq.
    vm_compute in Heq. discriminate.
  - intros s'. split_and!; vm_compute; reflexivity.
Qed.

(** The empty field name is not guarded by [incrObjectFieldBy] either. *)
Remark incrObjectFieldBy_empty_field_writes :
  incrObjectFieldBy empty_db (KStr "k") "" (VNum 1)
  = (Db {["k" := THash]} {["k" := {["" := JNum 1]}]},
     Ok (Value (INum (Num 1)))).
Proof. vm_compute. reflexivity. Qed.

(** [parseInt] skips the white space of Unicode before the digits: an
    increment that starts with a no-break space is a number. *)
Remark parseInt_no_break_space :
  parseInt (VStr (String (ascii_of_nat 194) (String (ascii_of_nat 160) "5")))
  = Num 5.
Proof. vm_compute. reflexivity. Qed.

(** ** Increment of one key *)

Lemma numeric_reading_doc_number (row : option document) (f : string) (n : Z) :
  doc_number row f = Some n → numeric_reading (row ≫= (.!! f)) = Some n.
Proof.
  unfold doc_number, numeric_reading.
  by destruct (row ≫= (.!! f)) as [[| | |]|].
Qed.

Lemma incr_row_reading (row : option document) (f : string) (v n : Z) :
  numeric_reading (row ≫= (.!! f)) = Some n →
  incr_row row f v
  = Ok (<[f := JNum (n + v)]> (default ∅ row), Some (n + v)%Z).
Proof.
  unfold incr_row, incr_data. intros Hn.
  assert (Hnew : ∀ d : document,
    jsonb_get_text (<[f := JNum (n + v)]> d) f = Some (string_of_Z (n + v))).
  { intros d. unfold jsonb_get_text. by rewrite lookup_insert_eq. }
  destruct row as [d|]; cbn [mbind option_bind default] in *.
  - assert (Hcur : cast_numeric (jsonb_get_text d f)
                   = Ok (if d !! f is Some JNull then None
                         else if d !! f is None then None else Some n)).
    { unfold jsonb_get_text, numeric_reading in *.
      destruct (d !! f) as [[|b|m|t]|]; simplify_eq; try done.
      - by rewrite cast_numeric_string_of_Z.
      - unfold cast_numeric.
        destruct (NilZero.int_of_string t); by simplify_eq/=. }
    rewrite Hcur. cbn [rbind]. unfold jsonb_set.
    replace (COALESCE (if d !! f is Some JNull then None
                       else if d !! f is None then None else Some n) 0%Z)
      with n.
    + by rewrite Hnew, cast_numeric_string_of_Z.
    + unfold numeric_reading in Hn.
      destruct (d !! f) as [[| | |]|]; by simplify_eq/=.
  - cbn in Hn. simplify_eq. cbn [rbind]. unfold jsonb_build_object.
    rewrite <-insert_empty, Z.add_0_l.
    by rewrite (Hnew ∅), cast_numeric_string_of_Z.
Qed.

(** The increment of one key with an increment that [parseInt] reads as the
    number [m]. *)
Lemma incrObjectFieldBy_single_state (s : db) (k f : string) (delta : jsval)
    (m n : Z) :
  k ≠ "" → parseInt delta = Num m → writable s k →
  numeric_reading (legacy_hash s !! k ≫= (.!! f)) = Some n →
  incrObjectFieldBy s (KStr k) f delta
  = (Db (<[k := THash]> (legacy_object_live s))
        (<[k := <[f := JNum (n + printed_value m)]>
                  (default ∅ (legacy_hash s !! k))]>
           (legacy_hash s)),
     Ok (Value (INum (number_of_Z (n + printed_value m))))).
Proof.
  intros Hk Hm Hw Hn. unfold incrObjectFieldBy. cbn [falsy_keyarg].
  rewrite bool_decide_eq_false_2, Hm by done. cbn [isNaN orb].
  unfold transaction.
  destruct (ensureLegacyObjectType_writable s k Hw) as (s1 & -> & Hh & Hreg).
  cbn [rbind numeric_param]. unfold query_incrObjectFieldBy. rewrite Hh.
  rewrite (incr_row_reading _ _ _ n) by done. cbn [rbind fst snd parseFloat].
  by rewrite Hreg.
Qed.

Lemma incrObjectFieldBy_one (s : db) (k f : string) (delta n : Z) :
  k ≠ "" → plain_number delta → writable s k →
  field_number s k f = Some n →
  ∃ s', incrObjectFieldBy s (KStr k) f (VNum delta)
        = (s', Ok (Value (INum (number_of_Z (n + delta)))))
        ∧ writable s' k
        ∧ field_number s' k f = Some (n + delta)%Z.
Proof.
  intros Hk Hdelta Hw Hn.
  rewrite (incrObjectFieldBy_single_state s k f (VNum delta) delta n);
    [|done|by apply parseInt_VNum|done|by apply numeric_reading_doc_number].
  rewrite (printed_value_plain delta) by apply Hdelta.
  eexists. split; [done|].
  unfold writable, field_number, doc_number. cbn [legacy_object_live legacy_hash].
  rewrite !lookup_insert_eq. split; [by right|]. simpl.
  by rewrite lookup_insert_eq.
Qed.

(** Calls in sequence: [n] increments by 1 of an absent field leave [n]. *)
Lemma incrObjectField_iterated (s : db) (k f : string) (n : nat) :
  k ≠ "" → writable s k → field_number s k f = Some 0%Z →
  field_number (Nat.iter n (λ s, (incrObjectField s (KStr k) f).1) s) k f
  = Some (Z.of_nat n).
Proof.
  intros Hk Hw H0.
  assert (H : writable (Nat.iter n (λ s, (incrObjectField s (KStr k) f).1) s) k
    ∧ field_number (Nat.iter n (λ s, (incrObjectField s (KStr k) f).1) s) k f
      = Some (Z.of_nat n)); [|by destruct H].
  induction n as [|n [IHw IHn]]; [done|].
  set (sn := Nat.iter n (λ s, (incrObjectField s (KStr k) f).1) s) in *.
  destruct (incrObjectFieldBy_one sn k f 1 (Z.of_nat n) Hk)
    as (s' & Hs & ? & Hs'); [by apply plain_number_small|done..|].
  change (Nat.iter (S n) (λ s, (incrObjectField s (KStr k) f).1) s)
    with (incrObjectFieldBy sn (KStr k) f (VNum 1)).1.
  rewrite Hs. cbn [fst]. split; [done|]. rewrite Hs'. f_equal. lia.
Qed.

(** ** Calls in flight *)

Lemma same_at_refl (s : db) (k : string) : same_at s s k.
Proof. by split. Qed.

Lemma same_at_trans (s1 s2 s3 : db) (k : string) :
  same_at s1 s2 k → same_at s2 s3 k → same_at s1 s3 k.
Proof. intros [? ?] [? ?]. split; congruence. Qed.

Lemma filter_insert_length {A} (P : A → Prop) `{!∀ x, Decision (P x)}
    (l : list A) (i : nat) (x y : A) :
  l !! i = Some y →
  (length (filter P (<[i := x]> l)) + (if decide (P y) then 1 else 0)
   = length (filter P l) + (if decide (P x) then 1 else 0))%nat.
Proof.
  revert i. induction l as [|a l IH]; intros i Hi; [done|].
  destruct i as [|i]; cbn in Hi.
  - simplify_eq. change (<[0%nat := x]> (y :: l)) with (x :: l).
    rewrite !filter_cons.
    destruct (decide (P x)), (decide (P y)); cbn [length]; lia.
  - change (<[S i := x]> (a :: l)) with (a :: <[i := x]> l).
    rewrite !filter_cons. specialize (IH i Hi).
    destruct (decide (P a)); cbn [length]; lia.
Qed.

Lemma unresolved_registered (calls : list progress) (i : nat) :
  calls !! i = Some Called →
  length (unresolved (<[i := Registered]> calls)) = length (unresolved calls).
Proof.
  intros Hi. unfold unresolved.
  pose proof (filter_insert_length (λ p, resolved p = false) calls i
                Registered Called Hi) as H.
  cbn beta in H. repeat case_decide; try done; lia.
Qed.

Lemma unresolved_resolved (calls : list progress) (i : nat) (v : number) :
  calls !! i = Some Registered →
  S (length (unresolved (<[i := Resolved v]> calls)))
  = length (unresolved calls).
Proof.
  intros Hi. unfold unresolved.
  pose proof (filter_insert_length (λ p, resolved p = false) calls i
                (Resolved v) Registered Hi) as H.
  cbn beta in H. repeat case_decide; try done; lia.
Qed.

Lemma values_of_resolved (calls : list progress) (i : nat) (p : progress)
    (v : number) :
  calls !! i = Some p → resolved p = false →
  values_of (<[i := Resolved v]> calls) ≡ₚ v :: values_of calls.
Proof.
  revert i. induction calls as [|a l IH]; intros i Hi Hp; [done|].
  destruct i as [|i]; cbn in Hi.
  - simplify_eq. change (<[0%nat := Resolved v]> (p :: l)) with (Resolved v :: l).
    by destruct p.
  - change (<[S i := Resolved v]> (a :: l)) with (a :: <[i := Resolved v]> l).
    destruct a; cbn [values_of]; rewrite (IH i Hi Hp); [done|done|].
    apply Permutation_swap.
Qed.

Lemma values_of_registered (calls : list progress) (i : nat) :
  calls !! i = Some Called →
  values_of (<[i := Registered]> calls) = values_of calls.
Proof.
  revert i. induction calls as [|a l IH]; intros i Hi; [done|].
  destruct i as [|i]; cbn in Hi.
  - by simplify_eq.
  - change (<[S i := Registered]> (a :: l)) with (a :: <[i := Registered]> l).
    destruct a; cbn [values_of]; by rewrite (IH i Hi).
Qed.

Lemma unresolved_none (calls : list progress) :
  Forall (λ p, resolved p = true) calls → unresolved calls = [].
Proof.
  unfold unresolved. induction 1 as [|p l Hp _ IH]; [done|].
  rewrite filter_cons_False; [done|]. by rewrite Hp.
Qed.

(** The statements of calls on one key, in any order in which every call
    sends the statements it has left: every call resolves, the field grows
    by the increment once per call that had not resolved, and the calls
    that resolve in the run resolve to the successive sums. *)
Lemma interleave_counts (key f : string) (value : number) (v : Z)
    (schedule : list nat) (s : db) (calls : list progress) (n : Z) :
  numeric_param value = Ok v →
  writable s key →
  field_number s key f = Some n →
  (∀ i p, calls !! i = Some p → p ≠ Called →
     legacy_object_live s !! key = Some THash) →
  (∀ i p, calls !! i = Some p →
     (statements_left p ≤ count_occ Nat.eq_dec schedule i)%nat) →
  ∃ s' calls',
    interleave key f value schedule (s, calls) = Ok (s', calls')
    ∧ length calls' = length calls
    ∧ Forall (λ p, resolved p = true) calls'
    ∧ field_number s' key f
      = Some (n + v * Z.of_nat (length (unresolved calls)))%Z
    ∧ (calls ≠ [] → legacy_object_live s' !! key = Some THash)
    ∧ (∀ k', k' ≠ key → same_at s s' k')
    ∧ values_of calls'
      ≡ₚ values_of calls
         ++ ((λ j, parseFloat (Some (n + v * Z.of_nat j)%Z))
               <$> seq 1 (length (unresolved calls))).
Proof.
  intros Hv. revert s calls n.
  induction schedule as [|i rest IH]; intros s calls n Hw Hn Hreg Hleft.
  - assert (Hall : Forall (λ p, resolved p = true) calls).
    { apply Forall_forall. intros p [i Hi]%list_elem_of_lookup.
      specialize (Hleft i p Hi). cbn in Hleft.
      destruct p; cbn in *; [lia..|done]. }
    exists s, calls. rewrite (unresolved_none calls Hall). cbn [length seq fmap list_fmap].
    split_and!; [done|done|done| | | |].
    + rewrite Hn. f_equal. lia.
    + intros Hne. destruct calls as [|p calls]; [done|].
      apply (Hreg 0%nat p); [done|].
      apply Forall_cons in Hall as [Hp _]. by destruct p.
    + intros k' _. apply same_at_refl.
    + by rewrite (right_id_L [] (++)).
  - assert (Hskip : calls !! i = None ∨ (∃ w, calls !! i = Some (Resolved w)) →
      ∀ i' p, calls !! i' = Some p →
        (statements_left p ≤ count_occ Nat.eq_dec rest i')%nat).
    { intros Hi i' p Hp. specialize (Hleft i' p Hp).
      destruct (decide (i = i')) as [<-|Hne].
      - destruct Hi as [Hi|[w Hi]]; rewrite Hi in Hp; simplify_eq. cbn. lia.
      - by rewrite count_occ_cons_neq in Hleft. }
    cbn [interleave]. unfold next_statement. cbn [fst snd].
    destruct (calls !! i) as [[| |w]|] eqn:Hi.
    + (* the registration *)
      destruct (ensureLegacyObjectType_writable s key Hw)
        as (c & -> & Hh & Hlive).
      cbn [rbind].
      destruct (IH c (<[i := Registered]> calls) n)
        as (s' & calls' & -> & Hlen & Hall & Hfield & Hlive' & Hframe & Hvals).
      * unfold writable. rewrite Hlive, lookup_insert_eq. by right.
      * unfold field_number. by rewrite Hh.
      * intros _ _ _ _. rewrite Hlive. apply lookup_insert_eq.
      * intros i' p. destruct (decide (i = i')) as [<-|Hne].
        -- rewrite list_lookup_insert_eq by (by eapply lookup_lt_Some).
           intros [= <-]. specialize (Hleft i Called Hi).
           rewrite count_occ_cons_eq in Hleft by done. cbn in *. lia.
        -- rewrite list_lookup_insert_ne by done. intros Hp.
           specialize (Hleft i' p Hp).
           by rewrite count_occ_cons_neq in Hleft.
      * exists s', calls'.
        rewrite unresolved_registered, values_of_registered in * by done.
        rewrite length_insert in Hlen.
        split_and!; [done|done|done|done| | |done].
        -- intros _. apply Hlive'. intros Hnil.
           apply (f_equal length) in Hnil. rewrite length_insert in Hnil.
           apply lookup_lt_Some in Hi. cbn in Hnil. lia.
        -- intros k' Hk'. eapply same_at_trans; [|by apply Hframe].
           split; [rewrite Hlive; by apply lookup_insert_ne|by rewrite Hh].
    + (* the upsert *)
      rewrite Hv. cbn [rbind]. unfold query_incrObjectFieldBy.
      rewrite (incr_row_number _ _ _ n) by done. cbn [rbind fst snd].
      set (s1 := Db _ _).
      destruct (IH s1 (<[i := Resolved (parseFloat (Some (n + v)%Z))]> calls)
                  (n + v)%Z)
        as (s' & calls' & -> & Hlen & Hall & Hfield & Hlive' & Hframe & Hvals).
      * done.
      * unfold field_number, doc_number, s1. cbn [legacy_hash].
        rewrite lookup_insert_eq. cbn. by rewrite lookup_insert_eq.
      * intros _ _ _ _. by apply (Hreg i Registered).
      * intros i' p. destruct (decide (i = i')) as [<-|Hne].
        -- rewrite list_lookup_insert_eq by (by eapply lookup_lt_Some).
           intros [= <-]. cbn. lia.
        -- rewrite list_lookup_insert_ne by done. intros Hp.
           specialize (Hleft i' p Hp).
           by rewrite count_occ_cons_neq in Hleft.
      * exists s', calls'.
        pose proof (unresolved_resolved calls i (parseFloat (Some (n + v)%Z)) Hi)
          as Hun.
        rewrite length_insert in Hlen.
        split_and!; [done|done|done| | | |].
        -- rewrite Hfield. f_equal. lia.
        -- intros _. apply Hlive'. intros Hnil.
           apply (f_equal length) in Hnil. rewrite length_insert in Hnil.
           apply lookup_lt_Some in Hi. cbn in Hnil. lia.
        -- intros k' Hk'. eapply same_at_trans; [|by apply Hframe].
           split; [done|]. unfold s1. cbn [legacy_hash].
           by apply lookup_insert_ne.
        -- rewrite Hvals, (values_of_resolved calls i Registered) by done.
           rewrite <-Hun. cbn [seq fmap list_fmap app].
           rewrite <-Permutation_middle.
           replace (n + v * Z.of_nat 1)%Z with (n + v)%Z by lia.
           constructor. apply Permutation_app_head.
           rewrite <-(fmap_S_seq 1), <-list_fmap_compose.
           apply reflexive_eq, list_fmap_ext. intros _ j _.
           unfold compose. do 2 f_equal. lia.
    + (* a call that has resolved *)
      cbn [rbind]. apply IH; [done..|]. apply Hskip. by eauto.
    + (* no such call *)
      cbn [rbind]. apply IH; [done..|]. apply Hskip. by left.
Qed.

(** A call alone: its two statements in a row are the call. *)
Lemma incrObjectFieldBy_as_statements (s : db) (k f : string)
    (delta : jsval) :
  k ≠ "" → parseInt delta ≠ NaN →
  incrObjectFieldBy s (KStr k) f delta
  = match interleave k f (parseInt delta) [0; 0]%nat (s, [Called]) with
    | Ok (s', [Resolved v]) => (s', Ok (Value (INum v)))
    | Ok _ => (s, Ok Null)
    | Err e => (s, Err e)
    end.
Proof.
  intros Hk Hnan. unfold incrObjectFieldBy. cbn [falsy_keyarg].
  rewrite bool_decide_eq_false_2 by done.
  destruct (parseInt delta) as [|neg|m] eqn:Hm; [done|..];
    cbn [isNaN orb interleave next_statement fst snd lookup list_lookup];
    unfold transaction;
    destruct (ensureLegacyObjectType s (Some k) THash) as [c|e];
    cbn [rbind list_insert fst snd lookup list_lookup numeric_param]; try done.
  unfold next_statement. cbn [fst snd].
  change (<[0%nat := Registered]> [Called] !! 0%nat) with (Some Registered).
  cbn [rbind numeric_param].
  by destruct (query_incrObjectFieldBy c k f (printed_value m)) as [[c' v]|e].
Qed.

(** C9.  [N] calls [incrObjectFieldBy(k, f, 1)] on a non-empty key that is
    unregistered or a hash and whose field is absent, their statements run
    in any order in which every call sends its two statements: no statement
    fails, every call resolves, the field ends at [N] (and reads as [N]),
    the calls resolve to the numbers 1 to [N] as [parseFloat] reads them,
    each to another one, and no other key is touched.  The upsert computes the new value from the row it
    writes: with the statements run one at a time there is nothing between
    its reading and its writing. *)
Theorem concurrent_increments (N : nat) (schedule : list nat) (s : db)
    (k f : string) :
  k ≠ "" → writable s k →
  legacy_hash s !! k ≫= (.!! f) = None →
  (∀ i, (i < N)%nat → (2 ≤ count_occ Nat.eq_dec schedule i)%nat) →
  ∃ s' calls,
    interleave k f (parseInt (VNum 1)) schedule (s, replicate N Called)
    = Ok (s', calls)
    ∧ length calls = N
    ∧ Forall (λ p, resolved p = true) calls
    ∧ field_number s' k f = Some (Z.of_nat N)
    ∧ (N ≠ 0%nat →
         getObjectField s' (Some k) f = Value (string_of_Z (Z.of_nat N)))
    ∧ values_of calls
      ≡ₚ (λ j, number_of_Z (Z.of_nat j)) <$> seq 1 N
    ∧ (∀ k', k' ≠ k → same_at s s' k').
Proof.
  intros Hk Hw Habsent Hsched.
  assert (Hun : ∀ n, unresolved (replicate n Called) = replicate n Called).
  { induction n as [|n IHn]; [done|]. cbn [replicate]. unfold unresolved in *.
    by rewrite filter_cons_True, IHn. }
  assert (Hvals : ∀ n, values_of (replicate n Called) = []).
  { induction n as [|n IHn]; [done|]. by cbn [replicate values_of]. }
  destruct (interleave_counts k f (parseInt (VNum 1)) 1 schedule s
              (replicate N Called) 0)
    as (s' & calls & Hrun & Hlen & Hall & Hfield & Hlive & Hframe & Hres).
  - rewrite parseInt_VNum by (by apply plain_number_small). done.
  - done.
  - unfold field_number, doc_number. by rewrite Habsent.
  - intros i p [-> _]%lookup_replicate. done.
  - intros i p [-> Hi]%lookup_replicate. cbn. by apply Hsched.
  - rewrite Hun, length_replicate in Hfield, Hres.
    rewrite Hvals in Hres. cbn [app] in Hres.
    rewrite length_replicate in Hlen.
    exists s', calls. split_and!; [done|done|done| | | |done].
    + rewrite Hfield. f_equal. lia.
    + intros HN. rewrite getObjectField_document by done.
      assert (Hreg : legacy_object_live s' !! k = Some THash).
      { apply Hlive. by destruct N. }
      unfold hash_document. rewrite decide_True by done.
      unfold field_number, doc_number in Hfield.
      destruct (legacy_hash s' !! k) as [d|]; cbn in *; [|simplify_eq; lia].
      unfold jsonb_get_text.
      destruct (d !! f) as [[| |m|]|]; simplify_eq; try lia.
      cbn. do 2 f_equal. lia.
    + rewrite Hres. apply reflexive_eq, list_fmap_ext. intros _ j _. cbn.
      f_equal. lia.
Qed.

(** ** Instances *)

Lemma getObjects_positional_witness :
  (∀ A (l : list A), reverse l ≡ₚ l)
  ∧ ["k2"; "k1"; "k2"] ≠ []
  ∧ getObjects (λ A, reverse) db_k1_zero ["k2"; "k1"; "k2"]
    = (λ k, of_sql (hash_document db_k1_zero k)) <$> ["k2"; "k1"; "k2"]
  ∧ length (getObjects (λ A, reverse) db_k1_zero ["k2"; "k1"; "k2"])
    = length ["k2"; "k1"; "k2"]
  ∧ ∀ i k, ["k2"; "k1"; "k2"] !! i = Some k →
      getObjects (λ A, reverse) db_k1_zero ["k2"; "k1"; "k2"] !! i
      = Some (of_sql (hash_document db_k1_zero k)).
Proof.
  split; [intros A l; apply reverse_Permutation|]. split; [done|].
  apply (getObjects_positional (λ A, reverse)); [|done].
  intros A l. apply reverse_Permutation.
Defined.

(** The order example of the specification, with joins that deliver their
    rows in reverse: [[k2, k1, k2]] where only [k1] has a document. *)
Example getObjects_k2_k1_k2 :
  getObjects (λ A, reverse) db_k1_zero ["k2"; "k1"; "k2"]
  = [Null; Value {["n" := JNum 0]}; Null].
Proof. vm_compute. reflexivity. Qed.

Lemma isObjectField_has_value_witness :
  "k1" ≠ "" ∧ ("hasOwnProperty" ∉ ["a"; "n"])
  ∧ (∃ b, isObjectField db_k1_zero (Some "k1") "n" = Value b
          ∧ (b = true ↔ has_value (hash_document db_k1_zero "k1") "n"))
  ∧ (∀ d, hash_document db_k1_zero "k1" = Some d →
       d !! "n" = None ∨ d !! "n" = Some JNull →
       isObjectField db_k1_zero (Some "k1") "n" = Value false)
  ∧ (∃ bs, isObjectFields db_k1_zero (Some "k1") ["a"; "n"] = Ok (Value bs)
           ∧ Forall2 (λ f b, b = true
                             ↔ has_value (hash_document db_k1_zero "k1") f)
                     ["a"; "n"] bs)
  ∧ (hash_document db_k1_zero "k1" = None →
       isObjectField db_k1_zero (Some "k1") "n" = Value false
       ∧ isObjectFields db_k1_zero (Some "k1") ["a"; "n"]
         = Ok (Value (replicate (length ["a"; "n"]) false))).
Proof.
  assert (H : "hasOwnProperty" ∉ ["a"; "n"]).
  { intros H. repeat (apply elem_of_cons in H as [H|H]; [discriminate H|]).
    by apply elem_of_nil in H. }
  split; [done|]. split; [exact H|].
  apply (isObjectField_has_value db_k1_zero "k1" "n" ["a"; "n"]);
    [done|exact H|]. intros Hnone. vm_compute in Hnone. discriminate Hnone.
Defined.

Lemma setObject_merges_witness :
  let r1 := setObject heap_a_b empty_db (Some "k") (Some 0%nat) in
  let r2 := setObject r1.1 r1.2.1 (Some "k") (Some 1%nat) in
  r1.2.2 = Ok Undefined ∧ r2.2.2 = Ok Undefined
  ∧ ∃ doc1 doc2,
      doc1 = delete "" ({["a" := JNum 1]} : document)
             ∪ default ∅ (legacy_hash empty_db !! "k")
      ∧ doc2 = delete "" ({["b" := JNum 2]} : document) ∪ doc1
      ∧ getObject r1.2.1 (Some "k") = Value doc1
      ∧ getObject r2.2.1 (Some "k") = Value doc2
      ∧ (∀ f v, f ≠ "" → ({["b" := JNum 2]} : document) !! f = Some v →
           doc2 !! f = Some v)
      ∧ (∀ f, ({["b" := JNum 2]} : document) !! f = None →
           doc2 !! f = doc1 !! f)
      ∧ doc2 !! "" = doc1 !! "".
Proof.
  intros r1 r2.
  apply (setObject_merges heap_a_b empty_db "k" 0%nat 1%nat
           {["a" := JNum 1]} {["b" := JNum 2]}
           r1.1 r2.1 r1.2.1 r2.2.1 r1.2.2 r2.2.2).
  - done.
  - by left.
  - reflexivity.
  - reflexivity.
  - vm_compute. reflexivity.
  - vm_compute. reflexivity.
  - reflexivity.
  - vm_compute. reflexivity.
Defined.

Lemma getObjectFields_requested_witness :
  "k2" ≠ ""
  ∧ hash_document db_k1_zero "k2" = None
  ∧ ("__proto__" ∉ ["a"; "n"])
  ∧ ∃ m, getObjectFields db_k1_zero (Some "k2") ["a"; "n"] = Value (parsed m)
         ∧ dom m = list_to_set ["a"; "n"]
         ∧ (∀ f, f ∈ ["a"; "n"] →
              m !! f = Some (default JNull
                               (hash_document db_k1_zero "k2" ≫= (.!! f))))
         ∧ (hash_document db_k1_zero "k2" = None →
              getObject db_k1_zero (Some "k2") = Null
              ∧ ∀ f, f ∈ ["a"; "n"] → m !! f = Some JNull).
Proof.
  assert (H : "__proto__" ∉ ["a"; "n"]).
  { intros H. repeat (apply elem_of_cons in H as [H|H]; [discriminate H|]).
    by apply elem_of_nil in H. }
  split; [done|]. split; [reflexivity|]. split; [exact H|].
  apply (getObjectFields_requested db_k1_zero "k2" ["a"; "n"]);
    [done| |done]. intros [d Hd]. vm_compute in Hd. discriminate Hd.
Defined.

Lemma guarded_calls_are_silent_witness :
  falsy (Some "") = true
  ∧ parseInt (VStr "abc") = NaN
  ∧ setObject heap_a_b db_k1_zero (Some "") (Some 0%nat)
    = (heap_a_b, (db_k1_zero, Ok Undefined))
  ∧ incrObjectFieldBy db_k1_zero (KStr "k1") "n" (VStr "abc")
    = (db_k1_zero, Ok Null).
Proof.
  split; [reflexivity|]. split; [reflexivity|].
  pose proof (guarded_calls_are_silent (λ A, reverse) heap_a_b db_k1_zero
                (Some "") (Some 0%nat) "n" ["n"] JNull (VStr "abc")
                (KStr "k1") eq_refl eq_refl) as H.
  split; [apply H|]. apply H.
Defined.

Lemma deleteObjectFields_removes_witness :
  "k1" ≠ ""
  ∧ ∃ s', deleteObjectFields db_k1_zero (Some "k1") ["n"] = (s', Ok Undefined)
          ∧ legacy_object_live s' = legacy_object_live db_k1_zero
          ∧ (∀ k', k' ≠ "k1" →
               legacy_hash s' !! k' = legacy_hash db_k1_zero !! k')
          ∧ (∀ d, legacy_hash db_k1_zero !! "k1" = Some d →
               ∃ d', legacy_hash s' !! "k1" = Some d'
                     ∧ ∀ f, d' !! f = if decide (f ∈ ["n"]) then None
                                      else d !! f)
          ∧ (∀ d, hash_document db_k1_zero "k1" = Some d →
               (∀ f, is_Some (d !! f) → f ∈ ["n"]) →
               hash_document s' "k1" = Some ∅
               ∧ getObject s' (Some "k1") = Value ∅
               ∧ getObjectKeys s' (Some "k1") = Value []).
Proof.
  split; [done|].
  apply (deleteObjectFields_removes db_k1_zero "k1" ["n"]). done.
Defined.

Lemma getObjectKeys_names_or_unset_witness :
  "k1" ≠ ""
  ∧ getObjectKeys db_k1_zero None = Undefined
  ∧ getObjectKeys db_k1_zero (Some "") = Undefined
  ∧ (∃ ks, getObjectKeys db_k1_zero (Some "k1") = Value ks
           ∧ NoDup ks
           ∧ (∀ f, f ∈ ks ↔
                ∃ d, hash_document db_k1_zero "k1" = Some d
                     ∧ is_Some (d !! f))
           ∧ (hash_document db_k1_zero "k1" = None → ks = []))
  ∧ @Undefined (list string) ≠ Value [].
Proof.
  split; [done|]. apply (getObjectKeys_names_or_unset db_k1_zero "k1"). done.
Defined.

Lemma setObject_strips_argument_witness :
  "k" ≠ ""
  ∧ heap_a_empty !! 1%nat = Some ({["" := JNum 1]} : document)
  ∧ ∃ o', (setObject heap_a_empty empty_db (Some "k") (Some 1%nat)).1 !! 1%nat
          = Some o'
          ∧ o' !! "" = None
          ∧ (∀ f, f ≠ "" → o' !! f = ({["" := JNum 1]} : document) !! f)
          ∧ (∀ l', l' ≠ 1%nat →
               (setObject heap_a_empty empty_db (Some "k") (Some 1%nat)).1 !! l'
               = heap_a_empty !! l')
          ∧ (({["" := JNum 1]} : document) !! "" = None →
               (setObject heap_a_empty empty_db (Some "k") (Some 1%nat)).1
               = heap_a_empty)
          ∧ (writable empty_db "k" →
               hash_document
                 (setObject heap_a_empty empty_db (Some "k") (Some 1%nat)).2.1
                 "k"
               = Some (o' ∪ default ∅ (legacy_hash empty_db !! "k"))).
Proof.
  split; [done|]. split; [reflexivity|].
  apply (setObject_strips_argument heap_a_empty empty_db "k" 1%nat
           {["" := JNum 1]}); [done|reflexivity|reflexivity].
Defined.

(** Three calls whose registrations all come before the first upsert, and
    whose upserts come in another order than their registrations. *)
Lemma concurrent_increments_witness :
  ∃ s' calls,
    interleave "k" "n" (parseInt (VNum 1)) [0; 1; 2; 1; 0; 2]%nat
      (empty_db, replicate 3 Called)
    = Ok (s', calls)
    ∧ length calls = 3%nat
    ∧ Forall (λ p, resolved p = true) calls
    ∧ field_number s' "k" "n" = Some (Z.of_nat 3)
    ∧ (3%nat ≠ 0%nat →
         getObjectField s' (Some "k") "n" = Value (string_of_Z (Z.of_nat 3)))
    ∧ values_of calls ≡ₚ (λ j, number_of_Z (Z.of_nat j)) <$> seq 1 3
    ∧ (∀ k', k' ≠ "k" → same_at empty_db s' k').
Proof.
  apply (concurrent_increments 3 [0; 1; 2; 1; 0; 2]%nat empty_db "k" "n").
  - done.
  - by left.
  - reflexivity.
  - intros i Hi. destruct i as [|[|[|i]]]; simpl; lia.
Defined.

(** In that run the second call resolves first: the calls resolve to 2, 1
    and 3. *)
Example concurrent_increments_run :
  interleave "k" "n" (parseInt (VNum 1)) [0; 1; 2; 1; 0; 2]%nat
    (empty_db, replicate 3 Called)
  = Ok (Db {["k" := THash]} {["k" := {["n" := JNum 3]}]},
        [Resolved (Num 2); Resolved (Num 1); Resolved (Num 3)]).
Proof. vm_compute. reflexivity. Qed.

(** * Further properties of the operations *)

(** ** The registry, whatever the key holds *)

Lemma ensureLegacyObjectType_registered (s : db) (k : string) :
  legacy_object_live s !! k = Some THash →
  ensureLegacyObjectType s (Some k) THash = Ok s.
Proof. intros H. unfold ensureLegacyObjectType. by rewrite H. Qed.

Lemma ensureLegacyObjectType_inv (s s1 : db) (key : option string) :
  ensureLegacyObjectType s key THash = Ok s1 →
  ∃ k, key = Some k
       ∧ writable s k
       ∧ legacy_hash s1 = legacy_hash s
       ∧ legacy_object_live s1 = <[k := THash]> (legacy_object_live s).
Proof.
  unfold ensureLegacyObjectType. destruct key as [k|]; [|done].
  destruct (legacy_object_live s !! k) as [t|] eqn:Hk.
  - case_decide as Ht; [|done]. intros [= <-]. subst t.
    exists k. split_and!; [done|by right|done|by rewrite insert_id].
  - intros [= <-]. exists k. split_and!; [done|by left|done|done].
Qed.

Lemma ensureLegacyObjectsType_inv (keys : list string) (s s1 : db) :
  ensureLegacyObjectsType s keys THash = Ok s1 →
  legacy_hash s1 = legacy_hash s
  ∧ ∀ k, k ∉ keys → legacy_object_live s1 !! k = legacy_object_live s !! k.
Proof.
  revert s. induction keys as [|k ks IH]; intros s; cbn [ensureLegacyObjectsType].
  - by intros [= <-].
  - destruct (ensureLegacyObjectType s (Some k) THash) as [s0|e] eqn:He; [|done].
    cbn [rbind]. intros Hrest.
    apply ensureLegacyObjectType_inv in He as (k0 & [= <-] & _ & Hh & Hreg).
    destruct (IH _ Hrest) as [Hh1 Hout]. split; [congruence|].
    intros k' [Hne Hk']%not_elem_of_cons.
    rewrite Hout, Hreg by done. by rewrite lookup_insert_ne.
Qed.

Lemma hash_document_written (s : db) (k : string) (d : document) :
  hash_document
    (Db (<[k := THash]> (legacy_object_live s)) (<[k := d]> (legacy_hash s))) k
  = Some d.
Proof.
  unfold hash_document. cbn [legacy_object_live legacy_hash].
  rewrite !lookup_insert_eq. by rewrite decide_True.
Qed.

(** ** Writing one field *)

Lemma setObjectField_writable (s : db) (k f : string) (v : json) :
  f ≠ "" → writable s k →
  setObjectField s (Some k) f v
  = (Db (<[k := THash]> (legacy_object_live s))
        (<[k := <[f := v]> (default ∅ (legacy_hash s !! k))]> (legacy_hash s)),
     Ok Undefined).
Proof.
  intros Hf Hw. unfold setObjectField.
  rewrite bool_decide_eq_false_2 by done. unfold transaction.
  destruct (ensureLegacyObjectType_writable s k Hw) as (s1 & -> & Hh & Hreg).
  cbn [rbind]. unfold query_setObjectField. cbn [rbind]. rewrite Hh, Hreg.
  destruct (legacy_hash s !! k) as [old|]; [done|].
  unfold jsonb_build_object. cbn [default]. by rewrite insert_empty.
Qed.

Lemma jsonb_get_text_lookup (d d' : document) (f : string) :
  d !! f = d' !! f → jsonb_get_text d f = jsonb_get_text d' f.
Proof. intros H. unfold jsonb_get_text. by rewrite H. Qed.

(** X1.  [setObjectField] on a key that is unregistered or a hash, with a
    non-empty field name, registers the key and sets that one field in the
    key's row (a new row holds only this field).  Afterwards [getObject]
    returns the row with the field set, [getObjectField] returns the value as
    text (a string as it is, a number in decimal digits, [null] for a JSON
    null), every other field reads as the row held it, and [isObjectField]
    is true unless the value is null. *)
Theorem setObjectField_then_read (s : db) (k f : string) (v : json) :
  k ≠ "" → f ≠ "" → writable s k →
  ∃ s', setObjectField s (Some k) f v = (s', Ok Undefined)
        ∧ legacy_object_live s' !! k = Some THash
        ∧ getObject s' (Some k)
          = Value (<[f := v]> (default ∅ (legacy_hash s !! k)))
        ∧ getObjectField s' (Some k) f
          = match v with
            | JNull => Null
            | JBool b => Value (if b then "true" else "false")
            | JNum n => Value (string_of_Z n)
            | JStr t => Value t
            end
        ∧ (∀ f', f' ≠ f →
             getObjectField s' (Some k) f'
             = of_sql (legacy_hash s !! k ≫= λ d, jsonb_get_text d f'))
        ∧ isObjectField s' (Some k) f = Value (bool_decide (v ≠ JNull)).
Proof.
  intros Hk Hf Hw. eexists. split; [by apply setObjectField_writable|].
  pose proof (hash_document_written s k
                (<[f := v]> (default ∅ (legacy_hash s !! k)))) as Hdoc.
  split_and!.
  - cbn [legacy_object_live]. apply lookup_insert_eq.
  - by rewrite getObject_document, Hdoc.
  - rewrite getObjectField_document, Hdoc by done. cbn [mbind option_bind].
    unfold jsonb_get_text. rewrite lookup_insert_eq. by destruct v as [|[]| |].
  - intros f' Hne. rewrite getObjectField_document, Hdoc by done.
    cbn [mbind option_bind].
    destruct (legacy_hash s !! k) as [d|]; cbn [default mbind option_bind].
    + f_equal. apply jsonb_get_text_lookup. by rewrite lookup_insert_ne.
    + unfold jsonb_get_text. by rewrite lookup_insert_ne, lookup_empty.
  - rewrite isObjectField_document, Hdoc by done. cbn [mbind option_bind].
    f_equal. unfold jsonb_get_text. rewrite lookup_insert_eq.
    destruct v as [|[]| |]; try done.
Qed.

(** X2.  A second [setObjectField] with the same key, field and value leaves
    the store as the first call left it and has the same outcome, whatever
    the key, the field and the store are. *)
Theorem setObjectField_idempotent (s : db) (key : option string) (f : string)
    (v : json) :
  setObjectField (setObjectField s key f v).1 key f v
  = setObjectField s key f v.
Proof.
  unfold setObjectField. case_bool_decide as Hf; [done|]. unfold transaction.
  destruct (ensureLegacyObjectType s key THash) as [s1|e] eqn:He;
    cbn [rbind fst]; [|by rewrite He].
  apply ensureLegacyObjectType_inv in He as (k & -> & _ & Hh & Hreg).
  unfold query_setObjectField. cbn [rbind fst].
  set (row := match legacy_hash s1 !! k with
              | Some old => jsonb_set old f v
              | None => jsonb_build_object f v
              end).
  assert (Hrow : row !! f = Some v).
  { unfold row, jsonb_set, jsonb_build_object.
    destruct (legacy_hash s1 !! k);
      [apply lookup_insert_eq|apply lookup_singleton_eq]. }
  replace (match legacy_hash s1 !! k with
           | Some old => <[k := jsonb_set old f v]> (legacy_hash s1)
           | None => <[k := jsonb_build_object f v]> (legacy_hash s1)
           end) with (<[k := row]> (legacy_hash s1))
    by (unfold row; by destruct (legacy_hash s1 !! k)).
  rewrite ensureLegacyObjectType_registered
    by (cbn [legacy_object_live]; rewrite Hreg; apply lookup_insert_eq).
  cbn [rbind legacy_hash legacy_object_live]. rewrite lookup_insert_eq.
  unfold jsonb_set at 1. rewrite (insert_id row f v Hrow).
  by rewrite insert_insert_eq.
Qed.

(** X3.  [setObject] with a mapping of one field, for a non-empty key and a
    field name that is neither empty nor hasOwnProperty, does what
    [setObjectField] does with that field: the same store and the same
    outcome, also when the key is registered under another type; the
    caller's object is not changed. *)
Theorem setObject_one_field (hp : heap) (s : db) (k f : string) (v : json)
    (l : loc) :
  k ≠ "" → f ≠ "" → f ≠ "hasOwnProperty" → hp !! l = Some {[f := v]} →
  setObject hp s (Some k) (Some l) = (hp, setObjectField s (Some k) f v).
Proof.
  intros Hk Hf Hshadow Hl. unfold setObject, setObjectField.
  rewrite falsy_Some, (bool_decide_eq_false_2 (f = "")) by done.
  rewrite (strip_empty_field_insert hp l _ Hl)
    by (by rewrite lookup_singleton_ne).
  assert (Hstrip : delete "" ({[f := v]} : document) = {[f := v]}).
  { apply delete_id. by rewrite lookup_singleton_ne. }
  rewrite Hstrip, (insert_id hp l _ Hl), (lookup_total_correct hp l _ Hl).
  f_equal. unfold transaction.
  destruct (ensureLegacyObjectType s (Some k) THash) as [c|e]; [|done].
  cbn [rbind]. unfold query_setObject, query_setObjectField. cbn [rbind].
  change (key_text (Some k)) with k.
  destruct (legacy_hash c !! k) as [old|]; [|done].
  unfold jsonb_concat, jsonb_set. by rewrite <-insert_union_singleton_l.
Qed.

(** X4.  For a non-empty key, [getObjectField] returns [null] exactly when
    [isObjectField] returns false, and a text exactly when it returns true:
    a missing key, a missing field and a field holding [null] read alike. *)
Theorem getObjectField_null_iff (s : db) (k f : string) :
  k ≠ "" →
  (getObjectField s (Some k) f = Null
   ↔ isObjectField s (Some k) f = Value false)
  ∧ ((∃ t, getObjectField s (Some k) f = Value t)
     ↔ isObjectField s (Some k) f = Value true)
  ∧ getObjectField s (Some k) f ≠ Undefined.
Proof.
  intros Hk. rewrite getObjectField_document, isObjectField_document by done.
  destruct (hash_document s k ≫= λ d, jsonb_get_text d f) as [t|];
    cbn [of_sql].
  - rewrite bool_decide_eq_true_2 by eauto.
    split_and!; [done| |done]. split; [done|by eauto].
  - rewrite bool_decide_eq_false_2 by (by intros [? ?]).
    split_and!; [done| |done]. split; [by intros [? ?]|done].
Qed.

(** X5.  A field set to [null] is present but not set: after
    [setObjectField(k, f, null)], for a non-empty key and a field name that
    is neither empty nor hasOwnProperty, [isObjectField] is false,
    [isObjectFields] is [[false]] and [getObjectField] is [null], as for a
    missing field, while [getObjectFields] returns [{f: null}] and
    [getObjectKeys] lists [f]. *)
Theorem setObjectField_null_present_not_set (s : db) (k f : string) :
  k ≠ "" → f ≠ "" → f ≠ "hasOwnProperty" → writable s k →
  isObjectField (setObjectField s (Some k) f JNull).1 (Some k) f = Value false
  ∧ getObjectField (setObjectField s (Some k) f JNull).1 (Some k) f = Null
  ∧ getObjectFields (setObjectField s (Some k) f JNull).1 (Some k) [f]
    = Value (parsed {[f := JNull]})
  ∧ isObjectFields (setObjectField s (Some k) f JNull).1 (Some k) [f]
    = Ok (Value [false])
  ∧ ∃ ks, getObjectKeys (setObjectField s (Some k) f JNull).1 (Some k)
          = Value ks
          ∧ f ∈ ks.
Proof.
  intros Hk Hf Hshadow Hw. rewrite setObjectField_writable by done. cbn [fst].
  set (s' := Db _ _).
  assert (Hdoc : hash_document s' k
                 = Some (<[f := JNull]> (default ∅ (legacy_hash s !! k))))
    by apply hash_document_written.
  assert (Hfields : getObjectFields s' (Some k) [f]
                    = Value (parsed {[f := JNull]})).
  { destruct (getObjectFields_cases s' k [f] Hk) as (m & -> & Hm);
      [done|by rewrite Hdoc|].
    do 2 f_equal. apply map_eq. intros f'. rewrite Hm, Hdoc. unfold requested.
    cbn [mbind option_bind]. case_decide as Hin.
    - apply list_elem_of_singleton in Hin as ->.
      by rewrite lookup_insert_eq, lookup_singleton_eq.
    - rewrite lookup_singleton_ne; [done|].
      intros ->. apply Hin, list_elem_of_singleton. done. }
  split_and!.
  - rewrite isObjectField_document, Hdoc by done. cbn [mbind option_bind].
    unfold jsonb_get_text. by rewrite lookup_insert_eq.
  - rewrite getObjectField_document, Hdoc by done. cbn [mbind option_bind].
    unfold jsonb_get_text. by rewrite lookup_insert_eq.
  - done.
  - rewrite (isObjectFields_plain s' k [f] {[f := JNull]}) by
      (by rewrite ?lookup_singleton_ne).
    cbn [fmap list_fmap]. rewrite lookup_singleton_eq.
    by rewrite (bool_decide_eq_false_2 (Some JNull ≠ Some JNull)) by (by intros []).
  - rewrite getObjectKeys_document, Hdoc by done. eexists. split; [done|].
    cbn [from_option]. apply elem_of_jsonb_object_keys.
    by rewrite lookup_insert_eq.
Qed.

(** X6.  [setObject] with a mapping that has no field to store (an empty
    object, or one whose only property is named by the empty string) still
    registers a non-empty key and leaves it with a document: the row it had,
    or the empty object, never [null]. *)
Theorem setObject_without_fields (hp : heap) (s : db) (k : string) (l : loc)
    (o : document) :
  k ≠ "" → writable s k → hp !! l = Some o →
  (∀ f, is_Some (o !! f) → f = "") →
  ∃ s', (setObject hp s (Some k) (Some l)).2 = (s', Ok Undefined)
        ∧ legacy_object_live s' !! k = Some THash
        ∧ getObject s' (Some k) = Value (default ∅ (legacy_hash s !! k))
        ∧ (legacy_hash s !! k = None →
             getObject s' (Some k) = Value ∅
             ∧ getObjectKeys s' (Some k) = Value []).
Proof.
  intros Hk Hw Hl Honly.
  assert (Hshadow : o !! "hasOwnProperty" = None).
  { destruct (o !! "hasOwnProperty") eqn:Ho; [|done].
    by specialize (Honly "hasOwnProperty" (mk_is_Some _ _ Ho)). }
  rewrite (setObject_writable hp s k l o) by done.
  cbn [snd]. eexists. split; [done|].
  assert (Hempty : delete "" o = (∅ : document)).
  { apply map_eq. intros f. rewrite lookup_empty.
    destruct (decide (f = "")) as [->|Hne]; [apply lookup_delete_eq|].
    rewrite lookup_delete_ne by done.
    destruct (o !! f) eqn:Hf; [|done]. destruct Hne. apply Honly. by eauto. }
  rewrite Hempty, (left_id_L ∅ (∪)).
  pose proof (hash_document_written s k (default ∅ (legacy_hash s !! k)))
    as Hdoc.
  split_and!.
  - cbn [legacy_object_live]. apply lookup_insert_eq.
  - by rewrite getObject_document, Hdoc.
  - intros Hnone. rewrite getObject_document, getObjectKeys_document by done.
    rewrite Hdoc, Hnone. cbn [default from_option of_sql].
    by rewrite jsonb_object_keys_empty.
Qed.

(** ** Batch reads and single reads *)

Lemma fmap_const_replicate {A B} (b : B) (l : list A) :
  (λ _, b) <$> l = replicate (length l) b.
Proof. induction l as [|a l IH]; [done|]. cbn. by rewrite IH. Qed.

Lemma getObjectFields_project (s : db) (k : string) (fields : list string) :
  k ≠ "" → fields ≠ [] → "__proto__" ∉ fields →
  getObjectFields s (Some k) fields
  = js_map parsed (of_sql (project_fields (hash_document s k) fields)).
Proof.
  intros Hk Hne Hproto. rewrite getObjectFields_document by done.
  destruct (hash_document s k) as [d|].
  - by destruct (project_fields (Some d) fields).
  - destruct (project_fields_lookup None fields Hne) as (m & -> & Hm).
    destruct (all_null_object fields Hproto) as (m' & -> & Hm').
    cbn [of_sql js_map]. do 2 f_equal. apply map_eq. intros f.
    by rewrite Hm, Hm'.
Qed.

Section Batch_and_single.

Variable join_order : ∀ A, list A → list A.
Hypothesis join_order_perm : ∀ A (l : list A), join_order A l ≡ₚ l.

(** X7.  For keys that are all non-empty, [getObjects] returns at each
    position what [getObject] returns for the key at that position. *)
Theorem getObjects_as_getObject (s : db) (keys : list string) :
  Forall (λ k, k ≠ "") keys →
  getObjects join_order s keys = (λ k, getObject s (Some k)) <$> keys.
Proof.
  intros Hkeys. unfold getObjects, query_getObjects.
  destruct keys as [|k0 keys0]; [done|].
  rewrite (ordered_join join_order join_order_perm), <-list_fmap_compose.
  apply Forall_fmap_ext. eapply Forall_impl; [exact Hkeys|].
  intros k Hk. cbn. by rewrite live_hash_outer_document, getObject_document.
Qed.

(** X8.  For keys that are all non-empty and a non-empty list of fields,
    none of them named __proto__, [getObjectsFields] returns at each position
    the mapping that [getObjectFields] returns, as a plain object, for the
    key at that position: the requested fields of the key's document, all
    [null] for a key without document. *)
Theorem getObjectsFields_as_getObjectFields (s : db)
    (keys fields : list string) :
  Forall (λ k, k ≠ "") keys → fields ≠ [] → "__proto__" ∉ fields →
  js_map parsed <$> getObjectsFields join_order s keys fields
  = (λ k, getObjectFields s (Some k) fields) <$> keys.
Proof.
  intros Hkeys Hne Hproto. unfold getObjectsFields, query_getObjectsFields.
  destruct keys as [|k0 keys0]; [done|].
  rewrite (ordered_join join_order join_order_perm
             (λ k, project_fields (live_hash_outer s k) fields)).
  rewrite <-!list_fmap_compose.
  apply Forall_fmap_ext. eapply Forall_impl; [exact Hkeys|].
  intros k Hk. cbn.
  by rewrite live_hash_outer_document, getObjectFields_project.
Qed.

(** X9.  With an empty list of fields [getObjectsFields] returns [null] at
    every position, for keys with and without document alike. *)
Theorem getObjectsFields_no_fields (s : db) (keys : list string) :
  getObjectsFields join_order s keys [] = replicate (length keys) Null.
Proof.
  unfold getObjectsFields, query_getObjectsFields.
  destruct keys as [|k0 keys0]; [done|].
  rewrite (ordered_join join_order join_order_perm
             (λ k, project_fields (live_hash_outer s k) [])).
  rewrite <-list_fmap_compose, <-(fmap_const_replicate (@Null document)).
  by apply list_fmap_ext.
Qed.

End Batch_and_single.

(** ** Values *)

Lemma for_in_Permutation (d : document) : for_in d ≡ₚ jsonb_object_keys d.
Proof. unfold for_in. apply filter_app_complement. Qed.

Lemma values_in_order (d : document) (l : list string) :
  (∀ f, f ∈ l → is_Some (d !! f)) →
  Forall2 (λ f v, d !! f = Some v) l
    (concat ((λ f, option_list (d !! f)) <$> l)).
Proof.
  induction l as [|f l IH]; intros Hl; [constructor|].
  rewrite fmap_cons. cbn [concat].
  destruct (Hl f) as [v Hv]; [by left|]. rewrite Hv. cbn.
  constructor; [done|]. apply IH. intros f' Hf'. apply Hl. by right.
Qed.

Lemma getObjectValues_document (s : db) (k : string) (d : document) :
  k ≠ "" → hash_document s k = Some d → d !! "hasOwnProperty" = None →
  getObjectValues s (Some k)
  = Ok (concat ((λ f, option_list (d !! f)) <$> for_in d)).
Proof.
  intros Hk Hd Hshadow. unfold getObjectValues.
  rewrite getObject_document, Hd by done. cbn [of_sql].
  rewrite (rmap_ok _ (λ f, option_list (d !! f))); [done|].
  intros f _. rewrite hasOwnProperty_plain by done. cbn [rbind].
  case_bool_decide as Hf; [done|].
  apply eq_None_not_Some in Hf. by rewrite Hf.
Qed.

(** X10.  For a non-empty key whose document has no field named
    hasOwnProperty, [getObjectValues] returns the values of the document,
    one per field, in the order in which the object parsed from the document
    enumerates its fields, which is a rearrangement of what [getObjectKeys]
    returns: the value [v] is returned exactly if some field holds it.  It
    returns the empty sequence for a key without document and for an empty or
    absent key. *)
Theorem getObjectValues_of_document (s : db) (k : string) :
  k ≠ "" →
  (∀ d, hash_document s k = Some d → d !! "hasOwnProperty" = None) →
  getObjectValues s None = Ok []
  ∧ getObjectValues s (Some "") = Ok []
  ∧ (hash_document s k = None → getObjectValues s (Some k) = Ok [])
  ∧ (∀ d, hash_document s k = Some d →
       ∃ vs, getObjectValues s (Some k) = Ok vs
             ∧ Forall2 (λ f v, d !! f = Some v) (for_in d) vs
             ∧ getObjectKeys s (Some k) = Value (jsonb_object_keys d)
             ∧ for_in d ≡ₚ jsonb_object_keys d
             ∧ (∀ v, v ∈ vs ↔ ∃ f, d !! f = Some v)).
Proof.
  intros Hk Hshadow. split; [done|]. split; [done|]. split.
  - intros Hnone. unfold getObjectValues.
    by rewrite getObject_document, Hnone.
  - intros d Hd.
    assert (Hvs : Forall2 (λ f v, d !! f = Some v) (for_in d)
                    (concat ((λ f, option_list (d !! f)) <$> for_in d))).
    { apply values_in_order. intros f Hf.
      by rewrite for_in_Permutation, elem_of_jsonb_object_keys in Hf. }
    eexists. split; [by apply (getObjectValues_document s k d); auto|].
    split_and!; [done| |apply for_in_Permutation|].
    + by rewrite getObjectKeys_document, Hd.
    + intros v. split.
      * intros [i Hi]%list_elem_of_lookup.
        destruct (Forall2_lookup_r _ _ _ _ _ Hvs Hi) as (f & _ & Hf).
        by eauto.
      * intros [f Hf].
        assert (Hin : f ∈ for_in d).
        { rewrite for_in_Permutation, elem_of_jsonb_object_keys. by eauto. }
        apply list_elem_of_lookup in Hin as [i Hi].
        destruct (Forall2_lookup_l _ _ _ _ _ Hvs Hi) as (v' & Hv' & Hfv').
        apply list_elem_of_lookup. exists i. congruence.
Qed.

(** X24.  Where the method is lost.  [setObject] with an object that has a
    property named hasOwnProperty, [isObjectFields] with a requested field
    of that name, or on a key without document with a requested field named
    __proto__, and [getObjectValues] on a document with a field named
    hasOwnProperty all throw the TypeError of a call of something that is
    not a function; [setObject] does so before it changes the object or the
    store. *)
Theorem hasOwnProperty_method_lost (hp : heap) (s : db) (k : string)
    (l : loc) (o : document) (fields : list string) :
  k ≠ "" →
  (hp !! l = Some o → is_Some (o !! "hasOwnProperty") →
   setObject hp s (Some k) (Some l)
   = (hp, (s, Err (TypeError "hasOwnProperty"))))
  ∧ ("hasOwnProperty" ∈ fields
     ∨ (hash_document s k = None ∧ "__proto__" ∈ fields) →
     isObjectFields s (Some k) fields = Err (TypeError "hasOwnProperty"))
  ∧ (∀ d, hash_document s k = Some d → is_Some (d !! "hasOwnProperty") →
       getObjectValues s (Some k) = Err (TypeError "hasOwnProperty")).
Proof.
  intros Hk. split_and!.
  - intros Hl Ho. by apply (setObject_shadowed hp s k l o).
  - intros Hfields.
    assert (Hne : fields ≠ []).
    { intros ->. destruct Hfields as [H|[_ H]]; by apply elem_of_nil in H. }
    unfold isObjectFields. rewrite falsy_Some by done.
    rewrite getObjectFields_document by done.
    assert (Hfirst : ∀ data : object,
      is_Some (own data !! "hasOwnProperty") ∨ null_prototype data = true →
      (run bs ← rmap (λ field,
                  run has ← hasOwnProperty data field;
                  Ok (has && bool_decide (own data !! field ≠ Some JNull)))
                fields;
       Ok (Value bs)) = Err (TypeError "hasOwnProperty")).
    { intros data Hdata. destruct fields as [|f0 fs]; [done|].
      cbn [rmap]. by rewrite hasOwnProperty_shadowed. }
    destruct (hash_document s k) as [d|] eqn:Hd.
    + destruct Hfields as [Hin|[? _]]; [|done].
      destruct (project_fields_lookup (Some d) fields Hne) as (m & -> & Hm).
      cbn [fmap option_fmap option_map of_sql]. apply Hfirst. left.
      cbn [own parsed]. rewrite Hm. unfold requested.
      rewrite decide_True by done. by eauto.
    + apply Hfirst. destruct Hfields as [Hin|[_ Hin]].
      * left. rewrite assign_null_own by done.
        rewrite decide_True by done. by eauto.
      * right. apply assign_null_prototype; [by left|done].
  - intros d Hd Ho. unfold getObjectValues.
    rewrite getObject_document, Hd by done. cbn [of_sql].
    assert (Hin : "hasOwnProperty" ∈ for_in d)
      by (by rewrite for_in_Permutation, elem_of_jsonb_object_keys).
    destruct (for_in d) as [|f0 fs]; [by apply elem_of_nil in Hin|].
    cbn [rmap]. by rewrite hasOwnProperty_shadowed by (by left).
Qed.

(** ** Deleting one field *)

Lemma filter_not_singleton (d : document) (f : string) :
  filter (λ kv : string * json, kv.1 ∉ [f]) d = delete f d.
Proof.
  apply map_eq. intros f'. rewrite map_lookup_filter.
  destruct (decide (f' = f)) as [->|Hne].
  - rewrite lookup_delete_eq. destruct (d !! f); [|done]. cbn.
    rewrite option_guard_False; [done|].
    intros Hnot. apply Hnot. cbn. by apply list_elem_of_singleton.
  - rewrite lookup_delete_ne by done. destruct (d !! f'); [|done]. cbn.
    rewrite option_guard_True; [done|]. cbn.
    by intros ?%list_elem_of_singleton.
Qed.

(** X11.  [deleteObjectField] after [setObjectField] of the same field, for
    a non-empty key and field name: the field is gone ([getObjectField]
    returns [null], [isObjectField] false), the key keeps its registration
    and a document, which holds the other fields of the row as they were. *)
Theorem deleteObjectField_after_setObjectField (s : db) (k f : string)
    (v : json) :
  k ≠ "" → f ≠ "" → writable s k →
  ∃ s2, deleteObjectField (setObjectField s (Some k) f v).1 (Some k) f
        = (s2, Ok Undefined)
        ∧ legacy_object_live s2 !! k = Some THash
        ∧ getObject s2 (Some k)
          = Value (delete f (default ∅ (legacy_hash s !! k)))
        ∧ getObjectField s2 (Some k) f = Null
        ∧ isObjectField s2 (Some k) f = Value false.
Proof.
  intros Hk Hf Hw. rewrite setObjectField_writable by done. cbn [fst].
  set (s1 := Db _ _).
  unfold deleteObjectField, deleteObjectFields.
  rewrite falsy_Some by done. change (key_text (Some k)) with k.
  rewrite (bool_decide_eq_false_2 ([f] = [])) by done. cbn [orb].
  destruct (query_deleteObjectFields_row s1 k [f]) as [Hreg Hhash].
  eexists. split; [done|].
  assert (Hdoc : hash_document (query_deleteObjectFields s1 k [f]) k
                 = Some (delete f (default ∅ (legacy_hash s !! k)))).
  { unfold hash_document. rewrite Hreg, Hhash. unfold s1.
    cbn [legacy_object_live legacy_hash].
    rewrite !lookup_insert_eq, decide_True by done.
    by rewrite filter_not_singleton, delete_insert_eq. }
  split_and!.
  - rewrite Hreg. unfold s1. cbn [legacy_object_live]. apply lookup_insert_eq.
  - by rewrite getObject_document, Hdoc.
  - rewrite getObjectField_document, Hdoc by done. cbn [mbind option_bind].
    unfold jsonb_get_text. by rewrite lookup_delete_eq.
  - rewrite isObjectField_document, Hdoc by done. cbn [mbind option_bind].
    unfold jsonb_get_text. by rewrite lookup_delete_eq.
Qed.

(** X12.  [deleteObjectFields] naming only fields that the key's row does
    not hold, in particular on a key without row, leaves the store exactly as
    it was: no row and no registration is created. *)
Theorem deleteObjectFields_absent_fields (s : db) (k : string)
    (fields : list string) :
  (∀ d f, legacy_hash s !! k = Some d → f ∈ fields → d !! f = None) →
  deleteObjectFields s (Some k) fields = (s, Ok Undefined).
Proof.
  intros Habsent. unfold deleteObjectFields.
  destruct (falsy (Some k) || bool_decide (fields = [])); [done|].
  f_equal. change (key_text (Some k)) with k.
  destruct (query_deleteObjectFields_row s k fields) as [Hreg Hhash].
  destruct (query_deleteObjectFields s k fields) as [reg' hash'].
  destruct s as [reg hash]. cbn [legacy_object_live legacy_hash] in *.
  subst reg' hash'. f_equal.
  destruct (hash !! k) as [d|] eqn:Hrow; [|done].
  rewrite map_filter_id; [by apply insert_id|].
  intros f v Hfv Hin. cbn in Hin.
  by rewrite (Habsent d f eq_refl Hin) in Hfv.
Qed.

(** ** Increment of one key, in general *)


(** X14.  [decrObjectField] after [incrObjectField], on a non-empty key
    whose document holds a number in the field, leaves the store exactly as
    it was before the two calls and returns the number that [parseFloat]
    reads from the digits of that number: the number itself up to 2^53 in
    magnitude.  [incrObjectField] returns likewise the number plus 1. *)
Theorem decrObjectField_after_incrObjectField (s : db) (k f : string)
    (d : document) (n : Z) :
  k ≠ "" → hash_document s k = Some d → d !! f = Some (JNum n) →
  decrObjectField (incrObjectField s (KStr k) f).1 (KStr k) f
  = (s, Ok (Value (INum (number_of_Z n))))
  ∧ (incrObjectField s (KStr k) f).2
    = Ok (Value (INum (number_of_Z (n + 1))))
  ∧ ((Z.abs n ≤ 2 ^ 53)%Z → number_of_Z n = Num n).
Proof.
  intros Hk Hd Hf. unfold hash_document in Hd. case_decide as Hreg; [|done].
  assert (Hone : ∀ z, (Z.abs z ≤ 1)%Z → parseInt (VNum z) = Num z
                                         ∧ printed_value z = z).
  { intros z Hz. split.
    - apply parseInt_VNum, plain_number_small.
      assert (1 < 2 ^ 53)%Z by (by vm_compute). lia.
    - apply printed_value_plain.
      assert (1 < 10 ^ 21)%Z by (by vm_compute). lia. }
  destruct (Hone 1%Z) as [Hp1 Hv1]; [done|].
  destruct (Hone (-1)%Z) as [Hm1 Hvm1]; [done|].
  unfold incrObjectField, decrObjectField.
  rewrite (incrObjectFieldBy_single_state s k f (VNum 1) 1 n Hk Hp1);
    [|by right|by rewrite Hd; cbn; rewrite Hf].
  cbn [fst snd]. rewrite Hv1.
  split_and!; [|done|apply number_of_Z_small].
  rewrite (incrObjectFieldBy_single_state _ k f (VNum (-1)) (-1) (n + 1) Hk Hm1).
  - rewrite Hvm1.
    destruct s as [reg hash]. cbn [legacy_object_live legacy_hash] in *.
    rewrite !lookup_insert_eq, !insert_insert_eq, Hd.
    cbn [default from_option id]. rewrite insert_insert_eq.
    replace (n + 1 + -1)%Z with n by lia.
    by rewrite (insert_id d f _ Hf), (insert_id hash k _ Hd),
      (insert_id reg k _ Hreg).
  - right. cbn [legacy_object_live]. apply lookup_insert_eq.
  - cbn [legacy_hash]. rewrite lookup_insert_eq. cbn [mbind option_bind].
    by rewrite lookup_insert_eq.
Qed.

(** X15.  [incrObjectFieldBy] on a field that holds a boolean rejects: the
    text of the field does not cast to a number, the call fails with that
    error and the store is left as it was. *)
Theorem incrObjectFieldBy_boolean_field (s : db) (k f : string)
    (d : document) (b : bool) (delta : Z) :
  k ≠ "" → hash_document s k = Some d → d !! f = Some (JBool b) →
  incrObjectFieldBy s (KStr k) f (VNum delta)
  = (s, Err (InvalidNumeric (if b then "true" else "false"))).
Proof.
  intros Hk Hd Hf. unfold hash_document in Hd. case_decide as Hreg; [|done].
  unfold incrObjectFieldBy. cbn [falsy_keyarg].
  destruct (parseInt_VNum_finite delta) as [m ->].
  rewrite bool_decide_eq_false_2 by done. cbn [isNaN orb].
  unfold transaction.
  rewrite ensureLegacyObjectType_registered by done.
  cbn [rbind numeric_param].
  unfold query_incrObjectFieldBy, incr_row, incr_data. rewrite Hd.
  unfold jsonb_get_text. rewrite Hf. by destruct b.
Qed.

(** ** The batch increment and a loop of single increments *)

Lemma db_eq (s1 s2 : db) :
  (∀ k, legacy_object_live s1 !! k = legacy_object_live s2 !! k) →
  (∀ k, legacy_hash s1 !! k = legacy_hash s2 !! k) →
  s1 = s2.
Proof.
  destruct s1, s2. cbn. intros Hreg Hh. f_equal; by apply map_eq.
Qed.

Lemma incr_loop_distinct (keys : list string) (s : db) (f : string)
    (delta : jsval) (m : Z) (prev : string → Z) :
  parseInt delta = Num m →
  NoDup keys →
  Forall (λ k, k ≠ "") keys →
  (∀ k, k ∈ keys → writable s k) →
  (∀ k, k ∈ keys → field_number s k f = Some (prev k)) →
  ∃ s', incr_loop s keys f delta
        = (s', (λ k, number_of_Z (prev k + printed_value m)) <$> keys)
        ∧ (∀ k, k ∈ keys →
             legacy_object_live s' !! k = Some THash
             ∧ legacy_hash s' !! k
               = Some (<[f := JNum (prev k + printed_value m)]>
                         (default ∅ (legacy_hash s !! k))))
        ∧ (∀ k, k ∉ keys → same_at s s' k).
Proof.
  intros Hm. revert s. induction keys as [|k ks IH]; intros s Hnd Hne Hw Hnum.
  - exists s. split_and!; [done| |done]. by intros k ?%elem_of_nil.
  - apply NoDup_cons in Hnd as [Hk Hnd].
    apply Forall_cons in Hne as [Hkne Hne].
    cbn [incr_loop].
    rewrite (incrObjectFieldBy_single_state s k f delta m (prev k));
      [|done|done|apply Hw; by left
       |apply numeric_reading_doc_number, Hnum; by left].
    set (s1 := Db _ _).
    destruct (IH s1) as (s' & -> & Hin & Hout); [done|done| | |].
    { intros k' Hk'. unfold writable, s1. cbn [legacy_object_live].
      rewrite lookup_insert_ne by (by intros ->). apply Hw. by right. }
    { intros k' Hk'. unfold field_number, s1. cbn [legacy_hash].
      rewrite lookup_insert_ne by (by intros ->). apply Hnum. by right. }
    exists s'. split_and!; [done| |].
    + intros k' [->|Hk']%elem_of_cons.
      * destruct (Hout k Hk) as [Hr Hh]. rewrite Hr, Hh. unfold s1.
        cbn [legacy_object_live legacy_hash]. by rewrite !lookup_insert_eq.
      * destruct (Hin k' Hk') as [Hr Hh]. split; [done|]. rewrite Hh.
        unfold s1. cbn [legacy_hash].
        by rewrite lookup_insert_ne by (by intros ->).
    + intros k' [Hne' Hk']%not_elem_of_cons.
      destruct (Hout k' Hk') as [Hr Hh]. split; [rewrite Hr|rewrite Hh];
        unfold s1; cbn [legacy_object_live legacy_hash];
        by rewrite lookup_insert_ne.
Qed.

(** X16.  For pairwise distinct non-empty keys, each unregistered or a hash
    with the field absent or holding a number, [incrObjectFieldBy] on the
    array does what one [incrObjectFieldBy] per key in the order of the
    array does: it leaves the same store and returns the same numbers in the
    same order. *)
Theorem incrObjectFieldBy_array_as_loop (s : db) (keys : list string)
    (f : string) (delta : Z) (prev : string → Z) :
  NoDup keys →
  Forall (λ k, k ≠ "") keys →
  (∀ k, k ∈ keys → writable s k) →
  (∀ k, k ∈ keys → field_number s k f = Some (prev k)) →
  incrObjectFieldBy s (KArr keys) f (VNum delta)
  = ((incr_loop s keys f (VNum delta)).1,
     Ok (Value (INums (incr_loop s keys f (VNum delta)).2))).
Proof.
  intros Hnd Hne Hw Hnum.
  destruct (parseInt_VNum_finite delta) as [m Hm].
  destruct (incrObjectFieldBy_array_state s keys f (VNum delta) m prev
              Hm Hnd Hw Hnum)
    as (sa & -> & Hina & Houta).
  destruct (incr_loop_distinct keys s f (VNum delta) m prev Hm Hnd Hne Hw Hnum)
    as (sl & -> & Hinl & Houtl).
  cbn [fst snd]. f_equal. apply db_eq; intros k.
  - destruct (decide (k ∈ keys)) as [Hk|Hk].
    + destruct (Hina k Hk) as [-> _], (Hinl k Hk) as [-> _]. done.
    + destruct (Houta k Hk) as [-> _], (Houtl k Hk) as [-> _]. done.
  - destruct (decide (k ∈ keys)) as [Hk|Hk].
    + destruct (Hina k Hk) as [_ ->], (Hinl k Hk) as [_ ->]. done.
    + destruct (Houta k Hk) as [_ ->], (Houtl k Hk) as [_ ->]. done.
Qed.

(** ** What a write leaves alone *)

Lemma same_at_ensured (s s1 : db) (k k' : string) (h : gmap string document) :
  k ≠ k' →
  ensureLegacyObjectType s (Some k) THash = Ok s1 →
  h !! k' = legacy_hash s1 !! k' →
  same_at s (Db (legacy_object_live s1) h) k'.
Proof.
  intros Hne He Hh.
  apply ensureLegacyObjectType_inv in He as (k0 & [= <-] & _ & Hh1 & Hreg).
  split; cbn [legacy_object_live legacy_hash].
  - rewrite Hreg. by apply lookup_insert_ne.
  - by rewrite Hh, Hh1.
Qed.

Lemma incr_rows_frame (keys : list string) (touched : gset string)
    (h h' : gmap string document) (f : string) (v : Z)
    (vs : list (option Z)) :
  incr_rows touched h keys f v = Ok (h', vs) →
  ∀ k, k ∉ keys → h' !! k = h !! k.
Proof.
  revert touched h h' vs.
  induction keys as [|k0 ks IH]; intros touched h h' vs; cbn [incr_rows].
  - by intros [= <- <-].
  - case_decide; [done|].
    destruct (incr_row (h !! k0) f v) as [r|e]; [|done]. cbn [rbind].
    destruct (incr_rows ({[k0]} ∪ touched) (<[k0 := r.1]> h) ks f v)
      as [[h'' vs']|e] eqn:Hrest; [|done].
    cbn [rbind fst snd]. intros [= <- <-] k [Hne Hk]%not_elem_of_cons.
    rewrite (IH _ _ _ _ Hrest k Hk). by apply lookup_insert_ne.
Qed.

(** X17.  A write to one key leaves every other key alone: after
    [setObject], [setObjectField], [deleteObjectFields], [deleteObjectField]
    or [incrObjectFieldBy] on the key [k], and after [incrObjectFieldBy] on
    an array of keys, a key that is not written has the registration and the
    row it had, whether the call succeeds, is a no-op, or fails. *)
Theorem writes_leave_other_keys (hp : heap) (s : db) (k k' : string)
    (data : option loc) (f : string) (v : json) (fields keys : list string)
    (delta : jsval) :
  k ≠ k' → k' ∉ keys →
  same_at s (setObject hp s (Some k) data).2.1 k'
  ∧ same_at s (setObjectField s (Some k) f v).1 k'
  ∧ same_at s (deleteObjectFields s (Some k) fields).1 k'
  ∧ same_at s (deleteObjectField s (Some k) f).1 k'
  ∧ same_at s (incrObjectFieldBy s (KStr k) f delta).1 k'
  ∧ same_at s (incrObjectFieldBy s (KArr keys) f delta).1 k'.
Proof.
  intros Hne Hk'.
  assert (Hdel : ∀ fs, same_at s (deleteObjectFields s (Some k) fs).1 k').
  { intros fs. unfold deleteObjectFields.
    destruct (falsy (Some k) || bool_decide (fs = []));
      [apply same_at_refl|]. cbn [fst]. change (key_text (Some k)) with k.
    destruct (query_deleteObjectFields_row s k fs) as [Hreg Hhash].
    split; [by rewrite Hreg|]. rewrite Hhash.
    destruct (legacy_hash s !! k); [|done]. by apply lookup_insert_ne. }
  split_and!.
  - unfold setObject. destruct data as [l|]; [|apply same_at_refl].
    destruct (falsy (Some k)); [apply same_at_refl|].
    destruct (strip_empty_field hp l) as [hp'|e]; [|apply same_at_refl].
    cbn [fst snd]. unfold transaction.
    destruct (ensureLegacyObjectType s (Some k) THash) as [c|e] eqn:He;
      cbn [rbind fst]; [|apply same_at_refl].
    unfold query_setObject. apply (same_at_ensured s c k k'); [done..|].
    change (key_text (Some k)) with k. cbn [legacy_hash].
    destruct (legacy_hash c !! k); by apply lookup_insert_ne.
  - unfold setObjectField. case_bool_decide; [apply same_at_refl|].
    unfold transaction.
    destruct (ensureLegacyObjectType s (Some k) THash) as [c|e] eqn:He;
      cbn [rbind fst query_setObjectField]; [|apply same_at_refl].
    apply (same_at_ensured s c k k'); [done..|].
    destruct (legacy_hash c !! k); by apply lookup_insert_ne.
  - apply Hdel.
  - apply Hdel.
  - unfold incrObjectFieldBy.
    destruct (falsy_keyarg (KStr k) || isNaN (parseInt delta));
      [apply same_at_refl|].
    unfold transaction.
    destruct (ensureLegacyObjectType s (Some k) THash) as [c|e] eqn:He;
      cbn [rbind fst]; [|apply same_at_refl].
    destruct (numeric_param (parseInt delta)) as [d|e];
      cbn [rbind fst]; [|apply same_at_refl].
    unfold query_incrObjectFieldBy.
    destruct (incr_row (legacy_hash c !! k) f d) as [r|e];
      cbn [rbind fst]; [|apply same_at_refl].
    apply (same_at_ensured s c k k'); [done..|]. by apply lookup_insert_ne.
  - unfold incrObjectFieldBy.
    destruct (falsy_keyarg (KArr keys) || isNaN (parseInt delta));
      [apply same_at_refl|].
    unfold transaction.
    destruct (ensureLegacyObjectsType s keys THash) as [c|e] eqn:He;
      cbn [rbind fst]; [|apply same_at_refl].
    destruct (numeric_param (parseInt delta)) as [d|e];
      cbn [rbind fst]; [|apply same_at_refl].
    unfold query_incrObjectFieldByMulti.
    destruct (incr_rows ∅ (legacy_hash c) keys f d) as [[h' vs]|e] eqn:Hrows;
      cbn [rbind fst]; [|apply same_at_refl].
    apply ensureLegacyObjectsType_inv in He as [Hh Hreg].
    split; cbn [legacy_object_live legacy_hash].
    + by apply Hreg.
    + by rewrite (incr_rows_frame _ _ _ _ _ _ _ Hrows k' Hk'), Hh.
Qed.

(** ** Reads go through the registry *)

(** X18.  A non-empty key whose live registration is not 'hash' reads as a
    key without document in every read, whatever row "legacy_hash" holds
    for it: [null], the empty sequences, false, and, when no requested field
    is named hasOwnProperty or __proto__, all false for [isObjectFields] and
    for [getObjectFields] the plain object with every requested field set to
    [null]. *)
Theorem reads_need_registration (s : db) (k f : string)
    (fields : list string) :
  k ≠ "" → legacy_object_live s !! k ≠ Some THash →
  "hasOwnProperty" ∉ fields → "__proto__" ∉ fields →
  getObject s (Some k) = Null
  ∧ getObjectField s (Some k) f = Null
  ∧ getObjectKeys s (Some k) = Value []
  ∧ getObjectValues s (Some k) = Ok []
  ∧ isObjectField s (Some k) f = Value false
  ∧ isObjectFields s (Some k) fields
    = Ok (Value (replicate (length fields) false))
  ∧ ∃ m, getObjectFields s (Some k) fields = Value (parsed m)
         ∧ ∀ f', m !! f' = if decide (f' ∈ fields) then Some JNull else None.
Proof.
  intros Hk Hreg Hshadow Hproto.
  assert (Hdoc : hash_document s k = None).
  { unfold hash_document. by rewrite decide_False. }
  assert (Hfields : ∃ m, getObjectFields s (Some k) fields = Value (parsed m)
    ∧ ∀ f', m !! f' = if decide (f' ∈ fields) then Some JNull else None).
  { destruct (getObjectFields_cases s k fields Hk) as (m & Hm & Hlook);
      [by rewrite Hdoc; intros [? ?]|done|].
    exists m. split; [done|]. intros f'. rewrite Hlook, Hdoc.
    unfold requested. by case_decide. }
  rewrite getObject_document, getObjectField_document, getObjectKeys_document,
    isObjectField_document, Hdoc by done.
  split_and!; [done..| | | |done].
  - unfold getObjectValues. by rewrite getObject_document, Hdoc.
  - done.
  - destruct Hfields as (m & Hm & Hlook).
    rewrite (isObjectFields_plain s k fields m Hk Hm)
      by (by rewrite Hlook, decide_False).
    do 2 f_equal.
    rewrite <-(fmap_const_replicate false). apply Forall_fmap_ext, Forall_forall.
    intros f' Hf'. rewrite Hlook, decide_True by done.
    by rewrite (bool_decide_eq_false_2 (Some JNull ≠ Some JNull))
      by (by intros []).
Qed.

(** ** Instances of the further properties *)

Lemma setObjectField_then_read_witness :
  ∃ s', setObjectField db_k1_zero (Some "k1") "m" (JStr "x")
        = (s', Ok Undefined)
        ∧ legacy_object_live s' !! "k1" = Some THash
        ∧ getObject s' (Some "k1")
          = Value (<["m" := JStr "x"]>
                     (default ∅ (legacy_hash db_k1_zero !! "k1")))
        ∧ getObjectField s' (Some "k1") "m" = Value "x"
        ∧ (∀ f', f' ≠ "m" →
             getObjectField s' (Some "k1") f'
             = of_sql (legacy_hash db_k1_zero !! "k1"
                       ≫= λ d, jsonb_get_text d f'))
        ∧ isObjectField s' (Some "k1") "m"
          = Value (bool_decide (JStr "x" ≠ JNull)).
Proof.
  apply (setObjectField_then_read db_k1_zero "k1" "m" (JStr "x"));
    [done|done|by right].
Defined.

Lemma setObject_one_field_witness :
  heap_a_b !! 0%nat = Some ({["a" := JNum 1]} : document)
  ∧ setObject heap_a_b db_k1_zero (Some "k1") (Some 0%nat)
    = (heap_a_b, setObjectField db_k1_zero (Some "k1") "a" (JNum 1)).
Proof.
  split; [reflexivity|].
  apply (setObject_one_field heap_a_b db_k1_zero "k1" "a" (JNum 1) 0%nat);
    [done|done|done|reflexivity].
Defined.

Lemma getObjectField_null_iff_witness :
  "k1" ≠ ""
  ∧ (getObjectField db_k1_zero (Some "k1") "n" = Null
     ↔ isObjectField db_k1_zero (Some "k1") "n" = Value false)
  ∧ ((∃ t, getObjectField db_k1_zero (Some "k1") "n" = Value t)
     ↔ isObjectField db_k1_zero (Some "k1") "n" = Value true)
  ∧ getObjectField db_k1_zero (Some "k1") "n" ≠ Undefined.
Proof.
  split; [done|]. by apply (getObjectField_null_iff db_k1_zero "k1" "n").
Defined.

Lemma setObjectField_null_present_not_set_witness :
  isObjectField (setObjectField db_k1_zero (Some "k1") "m" JNull).1
    (Some "k1") "m" = Value false
  ∧ getObjectField (setObjectField db_k1_zero (Some "k1") "m" JNull).1
      (Some "k1") "m" = Null
  ∧ getObjectFields (setObjectField db_k1_zero (Some "k1") "m" JNull).1
      (Some "k1") ["m"] = Value (parsed {["m" := JNull]})
  ∧ isObjectFields (setObjectField db_k1_zero (Some "k1") "m" JNull).1
      (Some "k1") ["m"] = Ok (Value [false])
  ∧ ∃ ks, getObjectKeys (setObjectField db_k1_zero (Some "k1") "m" JNull).1
            (Some "k1") = Value ks
          ∧ "m" ∈ ks.
Proof.
  apply (setObjectField_null_present_not_set db_k1_zero "k1" "m");
    [done|done|done|by right].
Defined.

Lemma setObject_without_fields_witness :
  heap_a_empty !! 1%nat = Some ({["" := JNum 1]} : document)
  ∧ ∃ s', (setObject heap_a_empty empty_db (Some "k") (Some 1%nat)).2
          = (s', Ok Undefined)
          ∧ legacy_object_live s' !! "k" = Some THash
          ∧ getObject s' (Some "k")
            = Value (default ∅ (legacy_hash empty_db !! "k"))
          ∧ (legacy_hash empty_db !! "k" = None →
               getObject s' (Some "k") = Value ∅
               ∧ getObjectKeys s' (Some "k") = Value []).
Proof.
  split; [reflexivity|].
  apply (setObject_without_fields heap_a_empty empty_db "k" 1%nat
           {["" := JNum 1]}); [done|by left|reflexivity|].
  intros f [v Hv]. destruct (decide (f = "")) as [|Hne]; [done|].
  by rewrite lookup_singleton_ne in Hv.
Defined.

Lemma getObjects_as_getObject_witness :
  Forall (λ k, k ≠ "") ["k2"; "k1"; "k2"]
  ∧ getObjects (λ A, reverse) db_k1_zero ["k2"; "k1"; "k2"]
    = (λ k, getObject db_k1_zero (Some k)) <$> ["k2"; "k1"; "k2"].
Proof.
  assert (H : Forall (λ k, k ≠ "") ["k2"; "k1"; "k2"])
    by (repeat constructor; done).
  split; [exact H|].
  apply (getObjects_as_getObject (λ A, reverse)); [|exact H].
  intros A l. apply reverse_Permutation.
Defined.

Lemma getObjectsFields_as_getObjectFields_witness :
  Forall (λ k, k ≠ "") ["k2"; "k1"]
  ∧ js_map parsed
      <$> getObjectsFields (λ A, reverse) db_k1_zero ["k2"; "k1"] ["n"; "a"]
    = (λ k, getObjectFields db_k1_zero (Some k) ["n"; "a"]) <$> ["k2"; "k1"].
Proof.
  assert (H : Forall (λ k, k ≠ "") ["k2"; "k1"])
    by (repeat constructor; done).
  split; [exact H|].
  apply (getObjectsFields_as_getObjectFields (λ A, reverse));
    [|exact H|done|].
  - intros A l. apply reverse_Permutation.
  - apply not_elem_of_cons. split; [done|].
    apply not_elem_of_cons. split; [done|apply not_elem_of_nil].
Defined.

Lemma getObjectsFields_no_fields_witness :
  getObjectsFields (λ A, reverse) db_k1_zero ["k1"; "k2"] []
  = replicate (length ["k1"; "k2"]) Null.
Proof.
  apply (getObjectsFields_no_fields (λ A, reverse)).
  intros A l. apply reverse_Permutation.
Defined.

Lemma getObjectValues_of_document_witness :
  hash_document db_k1_zero "k1" = Some {["n" := JNum 0]}
  ∧ getObjectValues db_k1_zero None = Ok []
  ∧ getObjectValues db_k1_zero (Some "") = Ok []
  ∧ (hash_document db_k1_zero "k1" = None →
       getObjectValues db_k1_zero (Some "k1") = Ok [])
  ∧ (∀ d, hash_document db_k1_zero "k1" = Some d →
       ∃ vs, getObjectValues db_k1_zero (Some "k1") = Ok vs
             ∧ Forall2 (λ f v, d !! f = Some v) (for_in d) vs
             ∧ getObjectKeys db_k1_zero (Some "k1")
               = Value (jsonb_object_keys d)
             ∧ for_in d ≡ₚ jsonb_object_keys d
             ∧ (∀ v, v ∈ vs ↔ ∃ f, d !! f = Some v)).
Proof.
  split; [reflexivity|].
  apply (getObjectValues_of_document db_k1_zero "k1"); [done|].
  intros d Hd.
  assert (d = {["n" := JNum 0]}) as ->.
  { apply (inj Some). rewrite <-Hd. reflexivity. }
  reflexivity.
Defined.

Lemma hasOwnProperty_method_lost_witness :
  heap_a_shadow !! 1%nat
  = Some ({["b" := JNum 2; "hasOwnProperty" := JNum 3]} : document)
  ∧ hash_document db_k1_shadow "k1"
    = Some {["hasOwnProperty" := JNum 1; "n" := JNum 0]}
  ∧ setObject heap_a_shadow db_k1_shadow (Some "k1") (Some 1%nat)
    = (heap_a_shadow, (db_k1_shadow, Err (TypeError "hasOwnProperty")))
  ∧ isObjectFields db_k1_shadow (Some "k1") ["n"; "hasOwnProperty"]
    = Err (TypeError "hasOwnProperty")
  ∧ getObjectValues db_k1_shadow (Some "k1")
    = Err (TypeError "hasOwnProperty").
Proof.
  split; [reflexivity|]. split; [reflexivity|].
  destruct (hasOwnProperty_method_lost heap_a_shadow db_k1_shadow "k1" 1%nat
              {["b" := JNum 2; "hasOwnProperty" := JNum 3]}
              ["n"; "hasOwnProperty"]) as (Hset & His & Hvalues); [done|].
  split_and!.
  - apply Hset; [reflexivity|]. by eexists.
  - apply His. left. apply elem_of_cons. right. apply elem_of_cons. by left.
  - apply (Hvalues {["hasOwnProperty" := JNum 1; "n" := JNum 0]});
      [reflexivity|]. by eexists.
Defined.

Lemma deleteObjectField_after_setObjectField_witness :
  ∃ s2, deleteObjectField
          (setObjectField db_k1_zero (Some "k1") "m" (JNum 3)).1
          (Some "k1") "m"
        = (s2, Ok Undefined)
        ∧ legacy_object_live s2 !! "k1" = Some THash
        ∧ getObject s2 (Some "k1")
          = Value (delete "m" (default ∅ (legacy_hash db_k1_zero !! "k1")))
        ∧ getObjectField s2 (Some "k1") "m" = Null
        ∧ isObjectField s2 (Some "k1") "m" = Value false.
Proof.
  apply (deleteObjectField_after_setObjectField db_k1_zero "k1" "m" (JNum 3));
    [done|done|by right].
Defined.

Lemma deleteObjectFields_absent_fields_witness :
  deleteObjectFields db_k1_zero (Some "k1") ["a"]
  = (db_k1_zero, Ok Undefined).
Proof.
  apply (deleteObjectFields_absent_fields db_k1_zero "k1" ["a"]).
  intros d f Hd ->%list_elem_of_singleton.
  assert (d = {["n" := JNum 0]}) as ->.
  { apply (inj Some). rewrite <-Hd. reflexivity. }
  reflexivity.
Defined.


Lemma decrObjectField_after_incrObjectField_witness :
  hash_document db_k1_zero "k1" = Some {["n" := JNum 0]}
  ∧ decrObjectField (incrObjectField db_k1_zero (KStr "k1") "n").1
      (KStr "k1") "n"
    = (db_k1_zero, Ok (Value (INum (number_of_Z 0))))
  ∧ (incrObjectField db_k1_zero (KStr "k1") "n").2
    = Ok (Value (INum (number_of_Z (0 + 1))))
  ∧ ((Z.abs 0 ≤ 2 ^ 53)%Z → number_of_Z 0 = Num 0).
Proof.
  split; [reflexivity|].
  apply (decrObjectField_after_incrObjectField db_k1_zero "k1" "n"
           {["n" := JNum 0]} 0); [done|reflexivity|reflexivity].
Defined.

Lemma incrObjectFieldBy_boolean_field_witness :
  hash_document db_k1_flag "k1" = Some {["on" := JBool true]}
  ∧ incrObjectFieldBy db_k1_flag (KStr "k1") "on" (VNum 1)
    = (db_k1_flag, Err (InvalidNumeric "true")).
Proof.
  split; [reflexivity|].
  apply (incrObjectFieldBy_boolean_field db_k1_flag "k1" "on"
           {["on" := JBool true]} true 1); [done|reflexivity|reflexivity].
Defined.

Lemma incrObjectFieldBy_array_as_loop_witness :
  incrObjectFieldBy db_k1_zero (KArr ["k1"; "k2"]) "n" (VNum 5)
  = ((incr_loop db_k1_zero ["k1"; "k2"] "n" (VNum 5)).1,
     Ok (Value (INums (incr_loop db_k1_zero ["k1"; "k2"] "n" (VNum 5)).2))).
Proof.
  apply (incrObjectFieldBy_array_as_loop db_k1_zero ["k1"; "k2"] "n" 5
           (λ _, 0%Z)).
  - apply NoDup_cons. split; [|apply NoDup_singleton].
    by intros ?%list_elem_of_singleton.
  - repeat constructor; done.
  - intros k Hk. repeat (apply elem_of_cons in Hk as [->|Hk]).
    + by right.
    + by left.
    + by apply elem_of_nil in Hk.
  - intros k Hk. repeat (apply elem_of_cons in Hk as [->|Hk]).
    + reflexivity.
    + reflexivity.
    + by apply elem_of_nil in Hk.
Defined.

Lemma writes_leave_other_keys_witness :
  "k2" ≠ "k1" ∧ ("k1" ∉ ["k2"])
  ∧ same_at db_k1_zero
      (setObject heap_a_b db_k1_zero (Some "k2") (Some 0%nat)).2.1 "k1"
  ∧ same_at db_k1_zero
      (setObjectField db_k1_zero (Some "k2") "n" (JNum 1)).1 "k1"
  ∧ same_at db_k1_zero
      (deleteObjectFields db_k1_zero (Some "k2") ["n"]).1 "k1"
  ∧ same_at db_k1_zero
      (deleteObjectField db_k1_zero (Some "k2") "n").1 "k1"
  ∧ same_at db_k1_zero
      (incrObjectFieldBy db_k1_zero (KStr "k2") "n" (VNum 1)).1 "k1"
  ∧ same_at db_k1_zero
      (incrObjectFieldBy db_k1_zero (KArr ["k2"]) "n" (VNum 1)).1 "k1".
Proof.
  assert (H1 : "k2" ≠ "k1") by done.
  assert (H2 : "k1" ∉ ["k2"]) by (by intros ?%list_elem_of_singleton).
  split; [exact H1|]. split; [exact H2|].
  apply (writes_leave_other_keys heap_a_b db_k1_zero "k2" "k1" (Some 0%nat)
           "n" (JNum 1) ["n"] ["k2"] (VNum 1) H1 H2).
Defined.

Lemma reads_need_registration_witness :
  legacy_hash db_k1_unregistered !! "k1" = Some {["n" := JNum 0]}
  ∧ getObject db_k1_unregistered (Some "k1") = Null
  ∧ getObjectField db_k1_unregistered (Some "k1") "n" = Null
  ∧ getObjectKeys db_k1_unregistered (Some "k1") = Value []
  ∧ getObjectValues db_k1_unregistered (Some "k1") = Ok []
  ∧ isObjectField db_k1_unregistered (Some "k1") "n" = Value false
  ∧ isObjectFields db_k1_unregistered (Some "k1") ["n"]
    = Ok (Value (replicate (length ["n"]) false))
  ∧ ∃ m, getObjectFields db_k1_unregistered (Some "k1") ["n"]
         = Value (parsed m)
         ∧ ∀ f', m !! f' = if decide (f' ∈ ["n"]) then Some JNull else None.
Proof.
  split; [reflexivity|].
  apply (reads_need_registration db_k1_unregistered "k1" "n" ["n"]);
    [done|done|by intros ?%list_elem_of_singleton
     |by intros ?%list_elem_of_singleton].
Defined.
